(** * Delegation tracker of [src/08-multi-agent-orchestration.ts]

    A shallow embedding of the event loop of [run], of its two helpers
    [startTicker] and [finishTicker], and of the text normalisation routine
    [extractText], followed by the properties of the tracker.

    Modelling conventions.
    - A value of TypeScript type [unknown] is a [JsVal]; a value the code
      binds at a declared type is modelled at that type ([string | undefined]
      is [option string]).
    - A JavaScript string is a [string], one character per code unit; the
      strings of the model are those of code units below 256.  White space
      is the white space and the line terminators of ECMAScript in that
      range: TAB, LF, VT, FF, CR, SP and the no-break space U+00A0.  Only
      the fixed decorations of the output lines, which no function of the
      program inspects, are written in UTF-8.
    - [String(v)] is modelled for the values it converts.  An object that
      carries a property [toString] of its own makes [String] throw in the
      runtime ([tryToStr], [tryExtractText]); such objects are outside
      [toStr] and [extractText], which are the functions of the source on
      the values the predicate [plain] marks ([plain_tryToStr],
      [plain_extractText]).
    - The fields [subagent_type], [description] and [prompt] of the input
      of a [tool_use] block are read at the types the code casts them to;
      an input with a field of another type is outside the model.
    - A number is an integer ([Z]) or, for the cost, a rational ([Q]); both
      stand for finite numbers of magnitude below 10^21, the range in which
      [String] and [toFixed] print plain decimal digits.
    - [Date.now()] reads the field [clock] of the world, which the
      environment sets when it hands the next input to the program; the
      clock stands still while the program handles that input.
    - The interval timers of the runtime are part of the world: a table of
      the live intervals and two counters, one for the calls of
      [setInterval] and one for the calls of [clearInterval]. *)

From Stdlib Require Import ZArith String Ascii List Sorted DecimalString QArith_base Lia.
From Stdlib Require DecimalZ.
From stdpp Require Import gmap strings list fin_maps.

(** ** JavaScript values *)

Module Js.

#[warnings="-register-all"] Inductive JsVal : Type :=
| JUndefined
| JNull
| JBool (b : bool)
| JNum (n : Z)
| JStr (s : string)
| JArr (items : list JsVal)
| JObj (fields : list (string * JsVal)).

(** Truthiness of a string: every string but the empty one. *)
Definition nonEmpty (s : string) : bool :=
  match s with
  | EmptyString => false
  | String _ _ => true
  end.

(** [ToBoolean]. *)
Definition truthy (v : JsVal) : bool :=
  match v with
  | JUndefined | JNull => false
  | JBool b => b
  | JNum n => negb (n =? 0)%Z
  | JStr s => nonEmpty s
  | JArr _ | JObj _ => true
  end.

(** [v ?? d]. *)
Definition nullish (v d : JsVal) : JsVal :=
  match v with
  | JUndefined | JNull => d
  | _ => v
  end.

(** Own property [k] of an object given by its fields. *)
Fixpoint prop (k : string) (fields : list (string * JsVal)) : JsVal :=
  match fields with
  | [] => JUndefined
  | (k', v) :: rest => if String.eqb k k' then v else prop k rest
  end.

(** [k in obj]. *)
Fixpoint hasProp (k : string) (fields : list (string * JsVal)) : bool :=
  match fields with
  | [] => false
  | (k', _) :: rest => if String.eqb k k' then true else hasProp k rest
  end.

(** [v.k] on a value that is neither [null] nor [undefined], for a key [k]
    that no built-in prototype defines ([text], [output], [content]). *)
Definition member (k : string) (v : JsVal) : JsVal :=
  match v with
  | JObj fields => prop k fields
  | _ => JUndefined
  end.

(** [v?.k]. *)
Definition optMember (k : string) (v : JsVal) : JsVal :=
  match v with
  | JUndefined | JNull => JUndefined
  | _ => member k v
  end.

(** Decimal rendering of an integer-valued number. *)
Definition decimal (n : Z) : string := NilZero.string_of_int (Z.to_int n).

(** [String(v)], for a value whose objects carry no property [toString] of
    their own. *)
Fixpoint toStr (v : JsVal) : string :=
  match v with
  | JUndefined => "undefined"
  | JNull => "null"
  | JBool true => "true"
  | JBool false => "false"
  | JNum n => decimal n
  | JStr s => s
  | JArr items =>
      String.concat ","
        (map (fun e => match e with
                       | JUndefined | JNull => ""
                       | _ => toStr e
                       end) items)
  | JObj _ => "[object Object]"
  end.

(** [String(v)] in full: [None] is the [TypeError] of the conversion of an
    object to a primitive.  A property [toString] of a parsed value is
    never a function, so an object that carries one of its own has no
    method left to convert it; the other objects are converted by the
    method of [Object.prototype], and an array by the join of its items. *)
Fixpoint tryToStr (v : JsVal) : option string :=
  match v with
  | JArr items =>
      String.concat ","
        <$> mapM (fun e => match e with
                           | JUndefined | JNull => Some ""
                           | _ => tryToStr e
                           end) items
  | JObj fields =>
      if hasProp "toString" fields then None else Some "[object Object]"
  | _ => Some (toStr v)
  end.

(** A value that [String] converts wherever it is reached: no object
    inside it carries a property [toString] of its own. *)
Fixpoint plain (v : JsVal) : bool :=
  match v with
  | JArr items => forallb plain items
  | JObj fields =>
      negb (hasProp "toString" fields)
      && forallb (fun field => plain (snd field)) fields
  | _ => true
  end.

(** White space of [String.prototype.trim] and of [parseInt] among the code
    units below 256: TAB, LF, VT, FF, CR, SP and the no-break space
    U+00A0. *)
Definition isSpace (a : ascii) : bool :=
  Ascii.is_space a || Ascii.eqb a (ascii_of_nat 160).

(** The seven white space characters, in the order of their codes. *)
Definition whiteSpace : string :=
  string_of_list_ascii (map ascii_of_nat [9; 10; 11; 12; 13; 32; 160]).

(** [String.prototype.trim]. *)
Fixpoint trimStart (s : string) : string :=
  match s with
  | EmptyString => ""
  | String a s' => if isSpace a then trimStart s' else s
  end.

Fixpoint trimEnd (s : string) : string :=
  match s with
  | EmptyString => ""
  | String a s' =>
      match trimEnd s' with
      | EmptyString => if isSpace a then "" else String a ""
      | r => String a r
      end
  end.

Definition trim (s : string) : string := trimEnd (trimStart s).

(** [Math.round(ms / 1000)] for an integer [ms]: halves round up. *)
Definition roundSeconds (ms : Z) : Z := ((ms + 500) / 1000)%Z.

Definition digit (d : Z) : string :=
  match (d mod 10)%Z with
  | 0 => "0" | 1 => "1" | 2 => "2" | 3 => "3" | 4 => "4"
  | 5 => "5" | 6 => "6" | 7 => "7" | 8 => "8" | _ => "9"
  end%Z.

Definition digits4 (m : Z) : string :=
  digit (m / 1000) +:+ digit (m / 100) +:+ digit (m / 10) +:+ digit m.

(** [x.toFixed(4)]: the integer [n] nearest to [x * 10^4], the larger one
    of two, printed with the decimal point before its last four digits; a
    negative [x] prints as [-] followed by the rendering of its opposite. *)
Definition nearest4 (x : Q) : Z :=
  ((2 * Z.abs (Qnum x) * 10000 + Z.pos (Qden x)) / (2 * Z.pos (Qden x)))%Z.

Definition toFixed4 (x : Q) : string :=
  let n := nearest4 x in
  (if (Qnum x <? 0)%Z then "-" else "")
    +:+ decimal (n / 10000) +:+ "." +:+ digits4 (n mod 10000).

(** Predicates on strings used in the statements. *)
Fixpoint blank (s : string) : bool :=
  match s with
  | EmptyString => true
  | String a s' => isSpace a && blank s'
  end.

Definition isDigit (a : ascii) : bool :=
  (48 <=? nat_of_ascii a) && (nat_of_ascii a <=? 57).

Fixpoint allDigits (s : string) : bool :=
  match s with
  | EmptyString => true
  | String a s' => isDigit a && allDigits s'
  end.

Definition contains (part whole : string) : Prop :=
  ∃ before after, whole = before +:+ part +:+ after.

End Js.
Import Js.

(** ** [extractText] *)

(** The callback of [content.map] in [extractText]. *)
Definition entryText (entry : JsVal) : string :=
  match entry with
  | JStr s => s
  | JObj fields =>
      if hasProp "text" fields
      then toStr (nullish (prop "text" fields) (JStr ""))
      else ""
  | _ => ""
  end.

Definition extractText (content : JsVal) : string :=
  match content with
  | JStr s => trim s
  | JArr items => trim (String.concat " " (map entryText items))
  | JObj fields =>
      if hasProp "text" fields
      then trim (toStr (nullish (prop "text" fields) (JStr "")))
      else ""
  | _ => ""
  end.

(** [extractText] in full, with the [TypeError] that [String] throws on a
    text it cannot convert; the exception leaves [map] at once. *)
Definition tryEntryText (entry : JsVal) : option string :=
  match entry with
  | JStr s => Some s
  | JObj fields =>
      if hasProp "text" fields
      then tryToStr (nullish (prop "text" fields) (JStr ""))
      else Some ""
  | _ => Some ""
  end.

Definition tryExtractText (content : JsVal) : option string :=
  match content with
  | JStr s => Some (trim s)
  | JArr items =>
      (fun texts => trim (String.concat " " texts))
        <$> mapM tryEntryText items
  | JObj fields =>
      if hasProp "text" fields
      then trim <$> tryToStr (nullish (prop "text" fields) (JStr ""))
      else Some ""
  | _ => Some ""
  end.

(** An item of a sequence that [extractText] reads text from. *)
Definition recognized (entry : JsVal) : bool :=
  match entry with
  | JStr _ => true
  | JObj fields => hasProp "text" fields
  | _ => false
  end.

(** ** Output lines *)

(** One constructor per [console] call of [run], carrying the values the
    template of that call interpolates; [render] is the text printed. *)
Inductive Line : Type :=
| LText (text : string)
| LDelegating (subagent_type contextSuffix : string)
| LUsingTool (name : string)
| LResult (label summary : string)
| LStillWorking (label : string) (elapsed : Z)
| LReturned (label : string) (total : Z)
| LUpdate (label progress : string)
| LDuration (duration_ms : Z)
| LCost (total_cost_usd : Q)
| LFinished
| LError (message : string).

Definition nl : string := String (ascii_of_nat 10) "".

Definition render (l : Line) : string :=
  match l with
  | LText text => text
  | LDelegating sub suffix =>
      nl +:+ "🚀 Delegating to " +:+ sub +:+ " subagent" +:+ suffix
  | LUsingTool name => nl +:+ "🚀 Using tool: " +:+ name
  | LResult label summary =>
      nl +:+ "📥 " +:+ label +:+ " result: " +:+ summary
  | LStillWorking label elapsed =>
      nl +:+ "⏳ " +:+ label +:+ " subagent still working ("
         +:+ decimal elapsed +:+ "s elapsed)..."
  | LReturned label total =>
      nl +:+ "✅ " +:+ label +:+ " subagent returned after "
         +:+ decimal total +:+ "s."
  | LUpdate label progress =>
      nl +:+ "🔄 " +:+ label +:+ " update: " +:+ progress
  | LDuration ms => nl +:+ "⏱️ Total duration: " +:+ decimal ms +:+ "ms"
  | LCost cost => "💰 Total cost: $" +:+ toFixed4 cost
  | LFinished => nl +:+ "✅ Multi-agent orchestration example finished."
  | LError message =>
      "❌ Error during multi-agent orchestration: " +:+ message
  end.

(** ** The world: registry, interval timers, clock and console *)

(** A value of the map [toolRuns]. *)
Record Entry : Type := mkEntry {
  label : string;
  start : Z;
  ticker : option nat
}.

(** A live interval: what its callback closes over, and its period.  The
    callback of [startTicker] captures [label] and the object [entry], of
    which it reads [start], a field no code assigns after creation. *)
Record Interval : Type := mkInterval {
  i_label : string;
  i_start : Z;
  i_delay : Z
}.

Record World : Type := mkWorld {
  toolRuns : gmap string Entry;
  intervals : gmap nat Interval;
  nextHandle : nat;
  setCalls : nat;
  clearCalls : nat;
  clock : Z;
  console : list Line
}.

Definition init : World :=
  {| toolRuns := ∅; intervals := ∅; nextHandle := 0;
     setCalls := 0; clearCalls := 0; clock := 0; console := [] |}.

Definition withRuns (f : gmap string Entry → gmap string Entry) (w : World)
  : World :=
  {| toolRuns := f (toolRuns w); intervals := intervals w;
     nextHandle := nextHandle w; setCalls := setCalls w;
     clearCalls := clearCalls w; clock := clock w; console := console w |}.

Definition setClock (now : Z) (w : World) : World :=
  {| toolRuns := toolRuns w; intervals := intervals w;
     nextHandle := nextHandle w; setCalls := setCalls w;
     clearCalls := clearCalls w; clock := now; console := console w |}.

(** [console.log] and [console.error]: the line goes to the end. *)
Definition log (l : Line) (w : World) : World :=
  {| toolRuns := toolRuns w; intervals := intervals w;
     nextHandle := nextHandle w; setCalls := setCalls w;
     clearCalls := clearCalls w; clock := clock w;
     console := console w ++ [l] |}.

(** [setInterval(callback, delay)]: a fresh handle, and the world in which
    the interval is live. *)
Definition setInterval (c : Interval) (w : World) : nat * World :=
  (nextHandle w,
   {| toolRuns := toolRuns w;
      intervals := <[nextHandle w := c]> (intervals w);
      nextHandle := S (nextHandle w); setCalls := S (setCalls w);
      clearCalls := clearCalls w; clock := clock w; console := console w |}).

(** [clearInterval(h)]. *)
Definition clearInterval (h : nat) (w : World) : World :=
  {| toolRuns := toolRuns w; intervals := delete h (intervals w);
     nextHandle := nextHandle w; setCalls := setCalls w;
     clearCalls := S (clearCalls w); clock := clock w; console := console w |}.

(** The runtime fires the callback of interval [h], if it is live. *)
Definition fire (h : nat) (w : World) : World :=
  match intervals w !! h with
  | Some c =>
      log (LStillWorking (i_label c) (roundSeconds (clock w - i_start c))) w
  | None => w
  end.

(** ** [startTicker] and [finishTicker] *)

Definition startTicker (id lbl : string) (w : World) : World :=
  match toolRuns w !! id with
  | None => w
  | Some entry =>
      let '(interval, w1) :=
        setInterval {| i_label := lbl; i_start := start entry;
                       i_delay := 5000 |} w in
      withRuns (insert id {| label := label entry; start := start entry;
                             ticker := Some interval |}) w1
  end.

Definition finishTicker (id : string) (lbl : option string) (w : World)
  : World :=
  match toolRuns w !! id with
  | None => w
  | Some entry =>
      let w1 := match ticker entry with
                | Some h => clearInterval h w
                | None => w
                end in
      let w2 := match lbl with
                | Some l =>
                    if nonEmpty l
                    then log (LReturned l
                                (roundSeconds (clock w1 - start entry))) w1
                    else w1
                | None => w1
                end in
      withRuns (delete id) w2
  end.

(** ** Messages of the runtime *)

(** The [input] of a [tool_use] block at the type the code casts it to,
    [{ subagent_type?: string; description?: string; prompt?: string }]. *)
Record TaskInput : Type := mkTaskInput {
  subagent_type : option string;
  description : option string;
  prompt : option string
}.

(** A content block of an assistant message: [text], [tool_use], or any
    other block, read as [{ content?: unknown; tool_use_id?: string }]. *)
Inductive Block : Type :=
| BText (text : string)
| BToolUse (id : option string) (name : string) (input : option TaskInput)
| BOther (content : JsVal) (tool_use_id : option string).

(** A message of the stream; [event] is a [Record<string, unknown>]. *)
Inductive Message : Type :=
| MAssistant (content : list Block)
| MStreamEvent (event : list (string * JsVal))
| MResult (duration_ms : Z) (total_cost_usd : Q)
| MOther.

(** What the environment hands to the program: the next message of the
    stream, or the callback of interval [handle]; [now] is the reading of
    the clock while the program handles it. *)
Inductive Input : Type :=
| IMessage (now : Z) (message : Message)
| ITick (now : Z) (handle : nat).

(** The body of the loop either completes or throws a [TypeError]. *)
Inductive Outcome : Type :=
| Done (w : World)
| Thrown (w : World) (message : string).

Definition andThen (o : Outcome) (k : World → Outcome) : Outcome :=
  match o with
  | Done w => k w
  | Thrown w e => Thrown w e
  end.

(** ** The loop body *)

(** [toolUseId ? toolRuns.get(toolUseId)?.label ?? 'subagent' : 'subagent'] *)
Definition labelOf (toolUseId : option string) (w : World) : string :=
  match toolUseId with
  | Some id =>
      if nonEmpty id
      then match toolRuns w !! id with
           | Some entry => label entry
           | None => "subagent"
           end
      else "subagent"
  | None => "subagent"
  end.

(** The suffix of the line of a delegation, from
    [input.description ?? input.prompt]. *)
Definition contextSuffix (input : TaskInput) : string :=
  let context := match description input with
                 | Some d => Some d
                 | None => prompt input
                 end in
  match context with
  | Some c =>
      if nonEmpty c
      then " — " +:+ String.substring 0 90 c
             +:+ (if 90 <? String.length c then "…" else "")
      else ""
  | None => ""
  end.

(** The [else] branch of the [tool_use] case. *)
Definition usingTool (id : option string) (name : string) (w : World)
  : World :=
  let w1 := match id with
            | Some i =>
                if nonEmpty i
                then withRuns (insert i {| label := name; start := clock w;
                                           ticker := None |}) w
                else w
            | None => w
            end in
  log (LUsingTool name) w1.

(** The [then] branch of the [tool_use] case. *)
Definition delegate (id sub : string) (input : TaskInput) (w : World)
  : World :=
  let w1 := withRuns (insert id {| label := sub; start := clock w;
                                   ticker := None |}) w in
  let w2 := log (LDelegating sub (contextSuffix input)) w1 in
  startTicker id sub w2.

Definition handleBlock (block : Block) (w : World) : World :=
  match block with
  | BText text => log (LText text) w
  | BToolUse id name input =>
      match input, id with
      | Some inp, Some i =>
          match subagent_type inp with
          | Some sub =>
              if nonEmpty sub && nonEmpty i
              then delegate i sub inp w
              else usingTool id name w
          | None => usingTool id name w
          end
      | _, _ => usingTool id name w
      end
  | BOther content toolUseId =>
      let summary := extractText (nullish content (JStr "")) in
      let w1 := if nonEmpty summary
                then log (LResult (labelOf toolUseId w) summary) w
                else w in
      match toolUseId with
      | Some id =>
          if nonEmpty id
          then finishTicker id (label <$> toolRuns w1 !! id) w1
          else w1
      | None => w1
      end
  end.

(** The text of a progress delta, before [output_text_delta] is read. *)
Definition deltaProgress (delta : JsVal) : string :=
  if truthy delta then
    match member "text" delta with
    | JStr s => s
    | _ =>
        match member "output" delta with
        | JStr s => s
        | JArr items => extractText (JArr items)
        | _ =>
            match member "content" delta with
            | JArr items => extractText (JArr items)
            | _ => ""
            end
        end
    end
  else "".

Definition handleStreamEvent (event : list (string * JsVal)) (w : World)
  : Outcome :=
  let eventType := match prop "type" event with
                   | JStr s => s
                   | _ => ""
                   end in
  if String.prefix "tool_result" eventType then
    let toolUseId := match prop "tool_use_id" event with
                     | JStr s => Some s
                     | _ => None
                     end in
    let lbl := labelOf toolUseId w in
    let progress := deltaProgress (prop "delta" event) in
    let outputText := optMember "text" (prop "output_text_delta" event) in
    let progress' := if negb (nonEmpty progress) && truthy outputText
                     then outputText
                     else JStr progress in
    match progress' with
    | JStr p =>
        let w1 := if nonEmpty (trim p)
                  then log (LUpdate lbl (trim p)) w
                  else w in
        match toolUseId with
        | Some id =>
            if nonEmpty id && String.eqb eventType "tool_result"
            then Done (finishTicker id (Some lbl) w1)
            else Done w1
        | None => Done w1
        end
    | _ => Thrown w "progress.trim is not a function"
    end
  else Done w.

Definition handleMessage (message : Message) (w : World) : Outcome :=
  match message with
  | MAssistant content =>
      Done (fold_left (fun w block => handleBlock block w) content w)
  | MStreamEvent event => handleStreamEvent event w
  | MResult duration_ms total_cost_usd =>
      Done (log (LCost total_cost_usd) (log (LDuration duration_ms) w))
  | MOther => Done w
  end.

Definition step (i : Input) (w : World) : Outcome :=
  match i with
  | IMessage now message => handleMessage message (setClock now w)
  | ITick now h => Done (fire h (setClock now w))
  end.

(** The [for await] loop, with the timer callbacks that run between two
    messages. *)
Fixpoint loop (inputs : list Input) (w : World) : Outcome :=
  match inputs with
  | [] => Done w
  | i :: rest => andThen (step i w) (loop rest)
  end.

(** [for (const [id] of toolRuns) finishTicker(id)] *)
Definition cleanup (w : World) : World :=
  fold_left (fun w id => finishTicker id None w)
            ((map_to_list (toolRuns w)).*1) w.

(** The [try] block of [run] from the loop on, and its [catch]; a run
    that throws ends in [process.exit(1)]. *)
Definition run (inputs : list Input) : Outcome :=
  match loop inputs init with
  | Done w => Done (log LFinished (cleanup w))
  | Thrown w e => Thrown (log (LError e) w) e
  end.

(** ** Vocabulary of the statements *)

(** The block is a [tool_use] carrying [id]: a dispatch under that id. *)
Definition blockDispatches (id : string) (block : Block) : bool :=
  match block with
  | BToolUse (Some i) _ _ => String.eqb i id
  | _ => false
  end.

Definition dispatches (id : string) (i : Input) : bool :=
  match i with
  | IMessage _ (MAssistant content) => existsb (blockDispatches id) content
  | _ => false
  end.

(** The ids under which the blocks of an input dispatch. *)
Definition blockIds (block : Block) : list string :=
  match block with
  | BToolUse (Some i) _ _ => [i]
  | _ => []
  end.

Definition dispatchedIds (i : Input) : list string :=
  match i with
  | IMessage _ (MAssistant content) => concat (map blockIds content)
  | _ => []
  end.

(** [event.output_text_delta?.text] has the type the code casts it to,
    [string | undefined]. *)
Definition outputTextTyped (event : list (string * JsVal)) : bool :=
  match optMember "text" (prop "output_text_delta" event) with
  | JStr _ | JUndefined => true
  | _ => false
  end.

(** The delegated role a [tool_use] input carries, if any: a
    [subagent_type] that is a non-empty string. *)
Definition roleOf (input : option TaskInput) : option string :=
  match input with
  | Some inp =>
      match subagent_type inp with
      | Some sub => if nonEmpty sub then Some sub else None
      | None => None
      end
  | None => None
  end.

(** [input.description ?? input.prompt] *)
Definition contextOf (input : option TaskInput) : option string :=
  match input with
  | Some inp =>
      match description inp with
      | Some d => Some d
      | None => prompt inp
      end
  | None => None
  end.

(** The message is a completion for [id]: an assistant message whose one
    block is a result block for [id], or a stream event of type
    [tool_result] for [id]. *)
Definition completes (id : string) (m : Message) : bool :=
  match m with
  | MAssistant [BOther _ (Some i)] => String.eqb i id
  | MStreamEvent event =>
      match prop "type" event, prop "tool_use_id" event with
      | JStr ty, JStr i => String.eqb ty "tool_result" && String.eqb i id
      | _, _ => false
      end
  | _ => false
  end.

Definition messageTyped (m : Message) : bool :=
  match m with
  | MStreamEvent event => outputTextTyped event
  | _ => true
  end.

(** The two lines of the run statistics. *)
Definition isStat (l : Line) : bool :=
  match l with
  | LDuration _ | LCost _ => true
  | _ => false
  end.

Definition isReturned (l : Line) : bool :=
  match l with
  | LReturned _ _ => true
  | _ => false
  end.

Definition isResultMessage (i : Input) : bool :=
  match i with
  | IMessage _ (MResult _ _) => true
  | _ => false
  end.

Definition inputTyped (i : Input) : bool :=
  match i with
  | IMessage _ m => messageTyped m
  | ITick _ _ => true
  end.

(** The world an outcome ends in. *)
Definition worldOf (o : Outcome) : World :=
  match o with
  | Done w => w
  | Thrown w _ => w
  end.

(** Coherence of the registry with the timers of the runtime: the ticker of
    an entry is a live interval whose callback reports on that entry, two
    entries never share a ticker, handles are allocated in order, every
    call of [clearInterval] so far has stopped a live interval, and no
    entry is registered under the empty string. *)
Record coherent (w : World) : Prop := {
  coh_key : ∀ id e, toolRuns w !! id = Some e → nonEmpty id = true;
  coh_live : ∀ id e h,
    toolRuns w !! id = Some e → ticker e = Some h →
    intervals w !! h
    = Some {| i_label := label e; i_start := start e; i_delay := 5000 |};
  coh_label : ∀ id e h,
    toolRuns w !! id = Some e → ticker e = Some h → nonEmpty (label e) = true;
  coh_inj : ∀ id1 id2 e1 e2 h,
    toolRuns w !! id1 = Some e1 → toolRuns w !! id2 = Some e2 →
    ticker e1 = Some h → ticker e2 = Some h → id1 = id2;
  coh_fresh : ∀ h, is_Some (intervals w !! h) → h < nextHandle w;
  coh_count : setCalls w = clearCalls w + size (intervals w)
}.

(** Every live interval is the ticker of a registered entry. *)
Definition owned (w : World) : Prop :=
  ∀ h, is_Some (intervals w !! h) →
       ∃ id e, toolRuns w !! id = Some e ∧ ticker e = Some h.

(** ** Sample inputs *)

(** A [Task] block delegating to [sub] under [id]. *)
Definition taskBlock (id sub context : string) : Block :=
  BToolUse (Some id) "Task"
    (Some {| subagent_type := Some sub; description := Some context;
             prompt := None |}).

(** One task dispatched, reported on, completed; then the result message. *)
Definition scenario : list Input :=
  [ IMessage 0 (MAssistant [taskBlock "t1" "coder" "build it"]);
    IMessage 3000
      (MStreamEvent [("type", JStr "tool_result_delta");
                     ("tool_use_id", JStr "t1");
                     ("delta", JObj [("text", JStr "50% done")])]);
    ITick 5000 0;
    IMessage 7400 (MAssistant [BOther (JStr "build finished") (Some "t1")]);
    IMessage 8000 (MResult 1200 (341 # 10000)) ].

(** The id [t1] dispatched a second time while still registered. *)
Definition redispatch : list Input :=
  [ IMessage 0 (MAssistant [taskBlock "t1" "researcher" "look into it"]);
    IMessage 10 (MAssistant [taskBlock "t1" "coder" "build it"]);
    IMessage 20 (MResult 1200 (341 # 10000)) ].

(** A stream event whose [output_text_delta.text] is a number. *)
Definition mistyped : list Input :=
  [ IMessage 0
      (MStreamEvent [("type", JStr "tool_result");
                     ("output_text_delta", JObj [("text", JNum 42)])]) ].

(** A stream event of type [type] for the id [ghost], which no input
    dispatches, with an [output_text_delta.text] that is a number. *)
Definition unknownEvent (type : string) : list Input :=
  [ IMessage 0
      (MStreamEvent [("type", JStr type);
                     ("tool_use_id", JStr "ghost");
                     ("output_text_delta", JObj [("text", JNum 42)])]) ].

(** The task [t1] dispatched and completed by its result block, then
    completed a second time by a stream event whose
    [output_text_delta.text] is a number. *)
Definition completedTwice : list Input :=
  [ IMessage 0 (MAssistant [taskBlock "t1" "coder" "build it"]);
    IMessage 7400 (MAssistant [BOther (JStr "build finished") (Some "t1")]);
    IMessage 7500
      (MStreamEvent [("type", JStr "tool_result");
                     ("tool_use_id", JStr "t1");
                     ("output_text_delta", JObj [("text", JNum 42)])]) ].

(** ** The prologue of [run] and its helpers of [utils/config.ts] *)

(** [s.repeat(n)] *)
Fixpoint repeatString (s : string) (n : nat) : string :=
  match n with
  | 0 => ""
  | S n' => s +:+ repeatString s n'
  end.

(** [printHeader] and [printSection]: the texts of their [console.log]
    calls, in order. *)
Definition printHeader (title : string) : list string :=
  [ nl +:+ repeatString "=" 60; "  " +:+ title; repeatString "=" 60 +:+ nl ].

Definition printSection (section : string) : list string :=
  [ nl +:+ "--- " +:+ section +:+ " ---" +:+ nl ].

(** [validateEnv], given the value of [process.env.ANTHROPIC_API_KEY]:
    the message of the [Error] it throws, if it throws. *)
Definition validateEnv (apiKey : option string) : option string :=
  match apiKey with
  | Some (String _ _) => None
  | _ =>
      Some ("ANTHROPIC_API_KEY is not set. "
            +:+ "Please create a .env file with your API key. "
            +:+ "See .env.example for reference.")
  end.

(** How the promise of [run] ends, with the texts printed until then:
    resolved, the process exited by [process.exit], or rejected with an
    error that nothing catches. *)
Inductive Exit : Type :=
| Resolved (printed : list string)
| Exited (code : Z) (printed : list string)
| Rejected (printed : list string) (error : string).

(** The whole of [run]: the header, [validateEnv], the section line, then
    the [try] block on the messages of the stream, which is taken to
    deliver its messages without failing. *)
Definition runWithPrologue (apiKey : option string) (inputs : list Input)
  : Exit :=
  let header := printHeader "Example 08: Multi-Agent Orchestration" in
  match validateEnv apiKey with
  | Some error => Rejected header error
  | None =>
      let printed :=
        header
        ++ printSection "Coordinated delegation across specialized subagents"
      in
      match run inputs with
      | Done w => Resolved (printed ++ map render (console w))
      | Thrown w _ => Exited 1 (printed ++ map render (console w))
      end
  end.

(** The texts printed until the promise of [run] ends. *)
Definition printedBy (x : Exit) : list string :=
  match x with
  | Resolved printed | Exited _ printed | Rejected printed _ => printed
  end.

(** [getModel], given the value of [process.env.CLAUDE_MODEL]. *)
Definition getModel (claudeModel : option string) : string :=
  match claudeModel with
  | Some (String a s) => String a s
  | _ => "claude-sonnet-4-5"
  end.

(** The value of a decimal digit. *)
Definition digitValue (a : ascii) : option Z := Z.of_nat <$> Ascii.is_nat a.

(** The value of the longest prefix of digits, continuing from [acc]. *)
Fixpoint parseDigits (s : string) (acc : Z) : Z :=
  match s with
  | EmptyString => acc
  | String a s' =>
      match digitValue a with
      | Some d => parseDigits s' (10 * acc + d)
      | None => acc
      end
  end.

(** The number [parseInt] returns: [NaN]; an integer of magnitude at most
    2^53, which a double holds exactly; or, when the digits read exceed
    2^53, the double nearest to them (past the twentieth digit, to an
    approximation the engine may choose), whose value [Large] leaves open.
    The sign of a zero is not kept. *)
Inductive Parsed : Type :=
| NaN
| Exact (z : Z)
| Large.

(** [parseInt(s, 10)]: leading white space is skipped, one sign is read,
    then the longest prefix of digits; the result is [NaN] when no digit
    follows. *)
Definition parseInt10 (s : string) : Parsed :=
  let s1 := trimStart s in
  let '(negative, s2) :=
    match s1 with
    | String "-" r => (true, r)
    | String "+" r => (false, r)
    | _ => (false, s1)
    end in
  match s2 with
  | EmptyString => NaN
  | String a _ =>
      match digitValue a with
      | Some _ =>
          let n := parseDigits s2 0 in
          if (n <=? 2 ^ 53)%Z
          then Exact (if negative then - n else n)%Z
          else Large
      | None => NaN
      end
  end.

(** [getMaxTokens], given the value of [process.env.CLAUDE_MAX_TOKENS]. *)
Definition getMaxTokens (claudeMaxTokens : option string) : Parsed :=
  match claudeMaxTokens with
  | Some (String a s) => parseInt10 (String a s)
  | _ => Exact 4096
  end.

(** The string starts with a decimal digit. *)
Definition startsWithDigit (s : string) : bool :=
  match s with
  | EmptyString => false
  | String a _ => match digitValue a with Some _ => true | None => false end
  end.

(** The string starts with a sign. *)
Definition startsWithSign (s : string) : bool :=
  match s with
  | String "-" _ | String "+" _ => true
  | _ => false
  end.

(** The value of a decimal numeral, continuing from [acc]. *)
Fixpoint horner (d : Decimal.uint) (acc : Z) : Z :=
  match d with
  | Decimal.Nil => acc
  | Decimal.D0 l => horner l (10 * acc + 0)
  | Decimal.D1 l => horner l (10 * acc + 1)
  | Decimal.D2 l => horner l (10 * acc + 2)
  | Decimal.D3 l => horner l (10 * acc + 3)
  | Decimal.D4 l => horner l (10 * acc + 4)
  | Decimal.D5 l => horner l (10 * acc + 5)
  | Decimal.D6 l => horner l (10 * acc + 6)
  | Decimal.D7 l => horner l (10 * acc + 7)
  | Decimal.D8 l => horner l (10 * acc + 8)
  | Decimal.D9 l => horner l (10 * acc + 9)
  end%Z.

(** ** More vocabulary *)

Definition startsBlank (s : string) : bool :=
  match s with
  | EmptyString => false
  | String a _ => isSpace a
  end.

Fixpoint endsBlank (s : string) : bool :=
  match s with
  | EmptyString => false
  | String a EmptyString => isSpace a
  | String _ s' => endsBlank s'
  end.

(** A text is clean when it is not empty and neither starts nor ends with
    white space. *)
Definition clean (s : string) : bool :=
  nonEmpty s && negb (startsBlank s) && negb (endsBlank s).

(** The text a result line or an update line carries is clean. *)
Definition textLineClean (l : Line) : bool :=
  match l with
  | LResult _ s | LUpdate _ s => clean s
  | _ => true
  end.

(** The seconds a progress line or a returned line reports are not
    negative. *)
Definition secondsNonNegative (l : Line) : bool :=
  match l with
  | LStillWorking _ v | LReturned _ v => (0 <=? v)%Z
  | _ => true
  end.

(** The reading of the clock an input is handled at. *)
Definition inputTime (i : Input) : Z :=
  match i with
  | IMessage now _ => now
  | ITick now _ => now
  end.

(** The stream event throws: its type starts with [tool_result], its delta
    gives no text, and [output_text_delta.text] is truthy and not a
    string. *)
Definition eventThrows (event : list (string * JsVal)) : bool :=
  match prop "type" event with
  | JStr ty =>
      String.prefix "tool_result" ty
      && negb (nonEmpty (deltaProgress (prop "delta" event)))
      && match optMember "text" (prop "output_text_delta" event) with
         | JStr _ => false
         | v => truthy v
         end
  | _ => false
  end.

(** A [string | undefined] that is falsy: undefined or the empty string. *)
Definition absent (o : option string) : bool :=
  match o with
  | Some (String _ _) => false
  | _ => true
  end.

Definition inputThrows (i : Input) : bool :=
  match i with
  | IMessage _ (MStreamEvent event) => eventThrows event
  | _ => false
  end.

(** The text of a stream event that does not throw: the text of the delta
    or, when there is none, [output_text_delta.text]. *)
Definition progressText (event : list (string * JsVal)) : string :=
  let progress := deltaProgress (prop "delta" event) in
  if nonEmpty progress then progress
  else match optMember "text" (prop "output_text_delta" event) with
       | JStr s => s
       | _ => ""
       end.

(** No entry and no live interval started after [bound], and no negative
    number of seconds on the console. *)
Record startedBy (bound : Z) (w : World) : Prop := {
  sb_entries : ∀ id e, toolRuns w !! id = Some e → (start e ≤ bound)%Z;
  sb_intervals : ∀ h c, intervals w !! h = Some c → (i_start c ≤ bound)%Z;
  sb_console : Forall (fun l => secondsNonNegative l = true) (console w)
}.

(** The payloads of an input are values that [String] converts. *)
Definition blockPlain (block : Block) : bool :=
  match block with
  | BOther content _ => plain content
  | _ => true
  end.

Definition inputPlain (i : Input) : bool :=
  match i with
  | IMessage _ (MAssistant content) => forallb blockPlain content
  | IMessage _ (MStreamEvent event) =>
      forallb (fun field => plain (snd field)) event
  | _ => true
  end.

(** [typeof event.tool_use_id === 'string' ? event.tool_use_id : undefined] *)
Definition eventId (event : list (string * JsVal)) : option string :=
  match prop "tool_use_id" event with
  | JStr s => Some s
  | _ => None
  end.

(** The last line of a run: the closing line or the error line. *)
Definition isEnd (l : Line) : bool :=
  match l with
  | LFinished | LError _ => true
  | _ => false
  end.

(** A line the loop may print: not a last line of the run, and with a
    clean text if it carries one. *)
Definition regular (l : Line) : bool := negb (isEnd l) && textLineClean l.

(** * Properties *)

(** ** Strings *)

Section Strings.

Lemma append_nil_l (s : string) : "" +:+ s = s.
Proof. reflexivity. Qed.

Lemma append_cons (a : ascii) (s t : string) :
  String a s +:+ t = String a (s +:+ t).
Proof. reflexivity. Qed.

Lemma append_nil_r (s : string) : s +:+ "" = s.
Proof.
  induction s as [|a s IH]; [reflexivity|].
  now rewrite append_cons, IH.
Qed.

Lemma append_assoc (a b c : string) : (a +:+ b) +:+ c = a +:+ b +:+ c.
Proof.
  induction a as [|x a IH]; [reflexivity|].
  now rewrite !append_cons, IH.
Qed.

(** On a plain value [toStr] is [String]. *)
Lemma plain_tryToStr (v : JsVal) :
  plain v = true → tryToStr v = Some (toStr v).
Proof.
  revert v. fix IH 1. intros v.
  destruct v as [| |b|n|s|items|fields]; try reflexivity.
  - intros H. simpl in *.
    assert (Hitems :
              mapM (fun e => match e with
                             | JUndefined | JNull => Some ""
                             | _ => tryToStr e
                             end) items
              = Some (map (fun e => match e with
                                    | JUndefined | JNull => ""
                                    | _ => toStr e
                                    end) items)).
    { induction items as [|e items IHitems]; [reflexivity|].
      simpl in H. apply andb_prop in H as [He Hrest].
      simpl. rewrite (IHitems Hrest).
      pose proof (IH e He) as Hc.
      destruct e; try reflexivity; rewrite Hc; reflexivity. }
    now rewrite Hitems.
  - simpl. intros [Hno _]%andb_prop. apply negb_true_iff in Hno.
    now rewrite Hno.
Qed.

Lemma plain_text (fields : list (string * JsVal)) :
  forallb (fun field => plain (snd field)) fields = true →
  plain (nullish (prop "text" fields) (JStr "")) = true.
Proof.
  induction fields as [|[k v] fields IH]; [reflexivity|].
  cbn [forallb prop snd]. intros [Hv Hrest]%andb_prop.
  destruct (String.eqb "text" k); [|now apply IH].
  destruct v; try reflexivity; exact Hv.
Qed.

Lemma plain_entryText (entry : JsVal) :
  plain entry = true → tryEntryText entry = Some (entryText entry).
Proof.
  destruct entry as [| |b|n|s|items|fields]; try reflexivity.
  simpl. intros [_ Hfields]%andb_prop.
  destruct (hasProp "text" fields); [|reflexivity].
  now apply plain_tryToStr, plain_text.
Qed.

(** On a plain content [extractText] is the function of the source. *)
Lemma plain_extractText (content : JsVal) :
  plain content = true → tryExtractText content = Some (extractText content).
Proof.
  destruct content as [| |b|n|s|items|fields]; try reflexivity.
  - simpl. intros H.
    assert (Hitems : mapM tryEntryText items = Some (map entryText items)).
    { induction items as [|e items IH]; [reflexivity|].
      simpl in H. apply andb_prop in H as [He Hrest].
      simpl. now rewrite (plain_entryText e He), (IH Hrest). }
    now rewrite Hitems.
  - simpl. intros [_ Hfields]%andb_prop.
    destruct (hasProp "text" fields); [|reflexivity].
    now rewrite (plain_tryToStr _ (plain_text fields Hfields)).
Qed.

(** An object with a property [toString] of its own is not converted, and
    neither is an array that holds one. *)
Lemma tryToStr_throws :
  tryToStr (JObj [("toString", JNum 1)]) = None
  ∧ tryToStr (JArr [JStr "a"; JObj [("toString", JNum 1)]]) = None
  ∧ tryToStr (JArr [JNum 1; JNull; JObj []; JArr [JStr "a"; JStr "b"]])
    = Some "1,,[object Object],a,b"
  ∧ tryExtractText (JArr [JObj [("text", JObj [("toString", JNum 1)])]])
    = None.
Proof. repeat split. Qed.

(** The white space characters are the seven of [whiteSpace] and no
    other. *)
Lemma isSpace_spec (a : ascii) :
  isSpace a = true ↔ In (nat_of_ascii a) [9; 10; 11; 12; 13; 32; 160].
Proof.
  destruct a as [[] [] [] [] [] [] [] []]; vm_compute; split;
    solve [ reflexivity | discriminate | tauto | intuition discriminate ].
Qed.

Lemma blank_append (a b : string) :
  blank (a +:+ b) = blank a && blank b.
Proof.
  induction a as [|x a IH]; [reflexivity|].
  rewrite append_cons. simpl. rewrite IH. now rewrite andb_assoc.
Qed.

Lemma trimStart_blank (s : string) : blank s = true → trimStart s = "".
Proof.
  induction s as [|a s IH]; simpl; [reflexivity|].
  intros [Ha Hs]%andb_prop. rewrite Ha. auto.
Qed.

Lemma trimStart_split (s : string) :
  ∃ before, s = before +:+ trimStart s ∧ blank before = true.
Proof.
  induction s as [|a s [b [Hb1 Hb2]]]; simpl.
  - now exists "".
  - destruct (isSpace a) eqn:Ha.
    + exists (String a b). rewrite append_cons, <- Hb1. simpl.
      now rewrite Ha, Hb2.
    + now exists "".
Qed.

Lemma trimEnd_split (s : string) :
  ∃ after, s = trimEnd s +:+ after ∧ blank after = true.
Proof.
  induction s as [|a s [b [Hb1 Hb2]]]; simpl.
  - now exists "".
  - destruct (trimEnd s) as [|c r] eqn:Hr.
    + rewrite append_nil_l in Hb1. subst b.
      destruct (isSpace a) eqn:Ha.
      * exists (String a s). simpl. now rewrite Ha, Hb2.
      * exists s. auto.
    + exists b. split; [|exact Hb2].
      now rewrite append_cons, <- Hb1.
Qed.

(** [trim] removes a blank prefix and a blank suffix and nothing else. *)
Lemma trim_split (s : string) :
  ∃ before after,
    s = before +:+ trim s +:+ after
    ∧ blank before = true ∧ blank after = true.
Proof.
  destruct (trimStart_split s) as [b [Hb1 Hb2]].
  destruct (trimEnd_split (trimStart s)) as [a [Ha1 Ha2]].
  exists b, a. unfold trim. rewrite <- Ha1. auto.
Qed.

Lemma entryText_unrecognized (e : JsVal) :
  recognized e = false → entryText e = "".
Proof.
  destruct e; simpl; try reflexivity; try discriminate.
  intros ->. reflexivity.
Qed.

Lemma join_unrecognized_blank (items : list JsVal) :
  forallb (fun e => negb (recognized e)) items = true →
  blank (String.concat " " (map entryText items)) = true.
Proof.
  induction items as [|e items IH]; simpl; [reflexivity|].
  intros [He Hi]%andb_prop. apply negb_true_iff in He.
  rewrite (entryText_unrecognized e He).
  destruct items as [|e' items']; [reflexivity|].
  change (map entryText (e' :: items'))
    with (entryText e' :: map entryText items') in *.
  rewrite append_nil_l, append_cons, append_nil_l.
  change (blank (String " " ?s)) with (blank s).
  apply IH, Hi.
Qed.

Lemma digit_isDigit (d : Z) : allDigits (digit d) = true.
Proof.
  unfold digit.
  destruct (d mod 10)%Z as [|p|p]; try reflexivity;
    repeat (destruct p as [p|p|]; try reflexivity).
Qed.

Lemma allDigits_append (a b : string) :
  allDigits (a +:+ b) = allDigits a && allDigits b.
Proof.
  induction a as [|x a IH]; [reflexivity|].
  rewrite append_cons. simpl. rewrite IH. now rewrite andb_assoc.
Qed.

Lemma digit_length (d : Z) : String.length (digit d) = 1.
Proof.
  unfold digit.
  destruct (d mod 10)%Z as [|p|p]; try reflexivity;
    repeat (destruct p as [p|p|]; try reflexivity).
Qed.

Lemma length_append (a b : string) :
  String.length (a +:+ b) = String.length a + String.length b.
Proof.
  induction a as [|x a IH]; [reflexivity|].
  rewrite append_cons. simpl. now rewrite IH.
Qed.

Lemma digits4_shape (m : Z) :
  String.length (digits4 m) = 4 ∧ allDigits (digits4 m) = true.
Proof.
  unfold digits4. split.
  - now rewrite !length_append, !digit_length.
  - now rewrite !allDigits_append, !digit_isDigit.
Qed.


End Strings.

(** ** The helpers and the registry *)

Section Registry.

Implicit Types (w : World) (id : string) (e : Entry).

Lemma finishTicker_unknown id lbl w :
  toolRuns w !! id = None → finishTicker id lbl w = w.
Proof. intros H. unfold finishTicker. now rewrite H. Qed.

Lemma finishTicker_runs id lbl w :
  toolRuns (finishTicker id lbl w) = delete id (toolRuns w).
Proof.
  unfold finishTicker. destruct (toolRuns w !! id) as [e|] eqn:He.
  - destruct (ticker e), lbl as [l|]; try destruct (nonEmpty l); reflexivity.
  - now rewrite delete_id.
Qed.

Lemma finishTicker_removes id lbl w :
  toolRuns (finishTicker id lbl w) !! id = None.
Proof. rewrite finishTicker_runs. apply lookup_delete_eq. Qed.

(** The lines [finishTicker] prints: one [LReturned] line when the entry is
    registered and the label is a non-empty string, none otherwise. *)
Lemma finishTicker_console id lbl w :
  console (finishTicker id lbl w)
  = console w ++
    match toolRuns w !! id, lbl with
    | Some e, Some l =>
        if nonEmpty l
        then [LReturned l (roundSeconds (clock w - start e))]
        else []
    | _, _ => []
    end.
Proof.
  unfold finishTicker. destruct (toolRuns w !! id) as [e|].
  - destruct (ticker e), lbl as [l|]; try destruct (nonEmpty l); simpl;
      now rewrite ?app_nil_r.
  - now rewrite app_nil_r.
Qed.

Lemma cleanup_fold_lookup (ids : list string) w (k : string) :
  toolRuns (fold_left (fun w id => finishTicker id None w) ids w) !! k
  = if decide (k ∈ ids) then None else toolRuns w !! k.
Proof.
  revert w. induction ids as [|id ids IH]; intros w; simpl.
  - destruct (decide (k ∈ [])) as [H|]; [inversion H | reflexivity].
  - rewrite IH, finishTicker_runs.
    destruct (decide (k ∈ ids)) as [Hin|Hin].
    + rewrite decide_True; [reflexivity | now right].
    + destruct (decide (k = id)) as [->|Hne].
      * rewrite decide_True by left. apply lookup_delete_eq.
      * rewrite decide_False.
        -- now apply lookup_delete_ne.
        -- intros [?|?]%elem_of_cons; contradiction.
Qed.

(** The loop over the registry at the end of [run] empties it. *)
Lemma cleanup_empties w : toolRuns (cleanup w) = ∅.
Proof.
  apply map_empty. intros k. unfold cleanup. rewrite cleanup_fold_lookup.
  destruct (decide (k ∈ (map_to_list (toolRuns w)).*1)) as [|Hnot];
    [reflexivity|].
  destruct (toolRuns w !! k) as [e|] eqn:He; [|reflexivity].
  exfalso. apply Hnot. apply list_elem_of_fmap. exists (k, e).
  split; [reflexivity|]. now apply elem_of_map_to_list.
Qed.

End Registry.

(** ** Coherence of the registry with the timers *)

Section Coherence.

Implicit Types (w : World) (id : string) (e : Entry).

Lemma coherent_init : coherent init.
Proof.
  split; simpl; intros; try (rewrite lookup_empty in *; discriminate).
  - destruct H as [? H]. rewrite lookup_empty in H. discriminate.
  - reflexivity.
Qed.

(** Coherence reads neither the clock nor the console. *)
Lemma coherent_same w w' :
  toolRuns w' = toolRuns w → intervals w' = intervals w →
  nextHandle w' = nextHandle w → setCalls w' = setCalls w →
  clearCalls w' = clearCalls w → coherent w → coherent w'.
Proof.
  intros Hr Hi Hn Hs Hc [H0 H1 H2 H3 H4 H5].
  split; rewrite ?Hr, ?Hi, ?Hn, ?Hs, ?Hc; assumption.
Qed.

Lemma coherent_log l w : coherent w → coherent (log l w).
Proof. now apply coherent_same. Qed.

Lemma coherent_setClock now w : coherent w → coherent (setClock now w).
Proof. now apply coherent_same. Qed.

Lemma coherent_fire h w : coherent w → coherent (fire h w).
Proof.
  unfold fire. destruct (intervals w !! h); [apply coherent_log | easy].
Qed.

(** Registering an entry that has no ticker. *)
Lemma coherent_insert_plain id lbl t w :
  nonEmpty id = true → coherent w →
  coherent (withRuns (insert id {| label := lbl; start := t;
                                   ticker := None |}) w).
Proof.
  intros Hid [H0 H1 H2 H3 H4 H5]. split; simpl; try assumption.
  - intros id' e [[-> <-]|[Hne He]]%lookup_insert_Some; eauto.
  - intros id' e h [[-> <-]|[Hne He]]%lookup_insert_Some Ht;
      [discriminate | eauto].
  - intros id' e h [[-> <-]|[Hne He]]%lookup_insert_Some Ht;
      [discriminate | eauto].
  - intros id1 id2 e1 e2 h [[-> <-]|[Hn1 He1]]%lookup_insert_Some
      [[-> <-]|[Hn2 He2]]%lookup_insert_Some Ht1 Ht2;
      try discriminate; eauto.
Qed.

Lemma coherent_usingTool o name w :
  coherent w → coherent (usingTool o name w).
Proof.
  intros H. unfold usingTool. apply coherent_log.
  destruct o as [i|]; [|exact H].
  destruct (nonEmpty i) eqn:Hi; [now apply coherent_insert_plain | exact H].
Qed.

(** The world after the [then] branch of the [tool_use] case. *)
Lemma delegate_world id sub inp w :
  delegate id sub inp w
  = {| toolRuns := <[id := {| label := sub; start := clock w;
                              ticker := Some (nextHandle w) |}]> (toolRuns w);
       intervals := <[nextHandle w := {| i_label := sub; i_start := clock w;
                                         i_delay := 5000 |}]> (intervals w);
       nextHandle := S (nextHandle w);
       setCalls := S (setCalls w);
       clearCalls := clearCalls w;
       clock := clock w;
       console := console w ++ [LDelegating sub (contextSuffix inp)] |}.
Proof.
  unfold delegate, startTicker. simpl. rewrite lookup_insert_eq. simpl.
  unfold withRuns. simpl. now rewrite insert_insert_eq.
Qed.

Lemma coherent_delegate id sub inp w :
  nonEmpty id = true → nonEmpty sub = true → coherent w →
  coherent (delegate id sub inp w).
Proof.
  intros Hid Hsub [H0 H1 H2 H3 H4 H5]. rewrite delegate_world.
  assert (Hnew : intervals w !! nextHandle w = None).
  { destruct (intervals w !! nextHandle w) eqn:Hh; [|reflexivity].
    assert (nextHandle w < nextHandle w) by (apply H4; eauto). lia. }
  assert (Hold : ∀ id' e h, toolRuns w !! id' = Some e →
                            ticker e = Some h → h ≠ nextHandle w).
  { intros id' e h He Ht ->. rewrite (H1 _ _ _ He Ht) in Hnew.
    discriminate. }
  split; simpl.
  - intros id' e [[-> <-]|[Hne He]]%lookup_insert_Some; eauto.
  - intros id' e h [[-> <-]|[Hne He]]%lookup_insert_Some Ht; simpl in *.
    + injection Ht as <-. now rewrite lookup_insert_eq.
    + rewrite lookup_insert_ne by (symmetry; eauto). eauto.
  - intros id' e h [[-> <-]|[Hne He]]%lookup_insert_Some Ht; simpl in *;
      eauto.
  - intros id1 id2 e1 e2 h [[-> <-]|[Hn1 He1]]%lookup_insert_Some
      [[-> <-]|[Hn2 He2]]%lookup_insert_Some Ht1 Ht2; simpl in *;
      try reflexivity; eauto.
    + injection Ht1 as <-. exfalso. now apply (Hold _ _ _ He2 Ht2).
    + injection Ht2 as <-. exfalso. now apply (Hold _ _ _ He1 Ht1).
  - intros h [<-|[Hne Hh]]%lookup_insert_is_Some; [lia|].
    specialize (H4 h Hh). lia.
  - rewrite map_size_insert_None by exact Hnew. lia.
Qed.

Lemma finishTicker_known id lbl w e :
  toolRuns w !! id = Some e →
  finishTicker id lbl w
  = {| toolRuns := delete id (toolRuns w);
       intervals := match ticker e with
                    | Some h => delete h (intervals w)
                    | None => intervals w
                    end;
       nextHandle := nextHandle w;
       setCalls := setCalls w;
       clearCalls := match ticker e with
                     | Some _ => S (clearCalls w)
                     | None => clearCalls w
                     end;
       clock := clock w;
       console := console w ++
                  match lbl with
                  | Some l =>
                      if nonEmpty l
                      then [LReturned l (roundSeconds (clock w - start e))]
                      else []
                  | None => []
                  end |}.
Proof.
  intros He. unfold finishTicker. rewrite He.
  destruct w as [r i n s c k o]; simpl.
  destruct (ticker e), lbl as [l|]; try destruct (nonEmpty l);
    unfold withRuns, log, clearInterval; simpl; now rewrite ?app_nil_r.
Qed.

Lemma coherent_finishTicker id lbl w :
  coherent w → coherent (finishTicker id lbl w).
Proof.
  intros Hw. destruct (toolRuns w !! id) as [e|] eqn:He;
    [|now rewrite finishTicker_unknown].
  rewrite (finishTicker_known _ _ _ _ He).
  destruct Hw as [H0 H1 H2 H3 H4 H5].
  assert (Hother : ∀ id' e' h, toolRuns w !! id' = Some e' → id ≠ id' →
                     ticker e' = Some h → ticker e ≠ Some h).
  { intros id' e' h He' Hne Ht' Ht. apply Hne. eauto. }
  split; simpl.
  - intros id' e' [Hne He']%lookup_delete_Some. eauto.
  - intros id' e' h [Hne He']%lookup_delete_Some Ht.
    destruct (ticker e) as [h0|] eqn:Hte; [|eauto].
    rewrite lookup_delete_ne; [eauto|].
    intros ->. now apply (Hother _ _ _ He' Hne Ht).
  - intros id' e' h [Hne He']%lookup_delete_Some Ht. eauto.
  - intros id1 id2 e1 e2 h [_ He1]%lookup_delete_Some
      [_ He2]%lookup_delete_Some. eauto.
  - intros h Hh. apply H4. destruct (ticker e); [|exact Hh].
    now apply lookup_delete_is_Some in Hh.
  - destruct (ticker e) as [h|] eqn:Hte; [|exact H5].
    rewrite map_size_delete_Some by (rewrite (H1 _ _ _ He Hte); eauto).
    assert (size (intervals w) ≠ 0).
    { apply map_size_ne_0_lookup_2 with h. rewrite (H1 _ _ _ He Hte). eauto. }
    lia.
Qed.

Lemma coherent_handleBlock block w :
  coherent w → coherent (handleBlock block w).
Proof.
  intros Hw. destruct block as [text|id name input|content toolUseId]; simpl.
  - now apply coherent_log.
  - destruct input as [inp|], id as [i|];
      try now apply coherent_usingTool.
    destruct (subagent_type inp) as [sub|];
      [|now apply coherent_usingTool].
    destruct (nonEmpty sub) eqn:Hs, (nonEmpty i) eqn:Hi; simpl;
      try now apply coherent_usingTool.
    now apply coherent_delegate.
  - set (w1 := if nonEmpty _ then _ else _).
    assert (coherent w1).
    { subst w1. destruct (nonEmpty _); [now apply coherent_log | exact Hw]. }
    destruct toolUseId as [id|]; [|assumption].
    destruct (nonEmpty id); [now apply coherent_finishTicker | assumption].
Qed.

Lemma coherent_blocks content w :
  coherent w →
  coherent (fold_left (fun w block => handleBlock block w) content w).
Proof.
  revert w. induction content as [|b content IH]; intros w Hw; simpl;
    [exact Hw|].
  apply IH. now apply coherent_handleBlock.
Qed.

Lemma coherent_handleStreamEvent event w :
  coherent w → coherent (worldOf (handleStreamEvent event w)).
Proof.
  intros Hw. unfold handleStreamEvent.
  destruct (String.prefix _ _); [|exact Hw].
  match goal with
  | |- context [if ?c then optMember ?k ?v else ?x] =>
      destruct (if c then optMember k v else x); try exact Hw
  end.
  set (w1 := if nonEmpty _ then _ else _).
  assert (coherent w1).
  { subst w1. destruct (nonEmpty _); [now apply coherent_log | exact Hw]. }
  destruct (prop "tool_use_id" event); try assumption.
  destruct (_ && _); simpl; [now apply coherent_finishTicker | assumption].
Qed.

Lemma coherent_step i w : coherent w → coherent (worldOf (step i w)).
Proof.
  intros Hw. destruct i as [t [content|event|d c|]|t h]; simpl.
  - now apply coherent_blocks, coherent_setClock.
  - now apply coherent_handleStreamEvent, coherent_setClock.
  - now apply coherent_log, coherent_log, coherent_setClock.
  - now apply coherent_setClock.
  - now apply coherent_fire, coherent_setClock.
Qed.

Lemma coherent_loop inputs w :
  coherent w → coherent (worldOf (loop inputs w)).
Proof.
  revert w. induction inputs as [|i inputs IH]; intros w Hw; simpl;
    [exact Hw|].
  pose proof (coherent_step i w Hw) as Hs.
  destruct (step i w) as [w1|w1 err]; simpl in *; [now apply IH | exact Hs].
Qed.

Lemma coherent_cleanup w : coherent w → coherent (cleanup w).
Proof.
  unfold cleanup. generalize ((map_to_list (toolRuns w)).*1) as ids.
  intros ids. revert w. induction ids as [|id ids IH]; intros w Hw; simpl;
    [exact Hw|].
  apply IH. now apply coherent_finishTicker.
Qed.

End Coherence.

(** ** Trimmed text *)

Section Trimmed.

Lemma trimStart_head (s : string) : startsBlank (trimStart s) = false.
Proof.
  induction s as [|a s IH]; simpl; [reflexivity|].
  destruct (isSpace a) eqn:Ha; [exact IH | simpl; exact Ha].
Qed.

Lemma trimEnd_tail (s : string) : endsBlank (trimEnd s) = false.
Proof.
  induction s as [|a s IH]; simpl; [reflexivity|].
  destruct (trimEnd s) as [|c r].
  - destruct (isSpace a) eqn:Ha; simpl; [reflexivity | exact Ha].
  - exact IH.
Qed.

Lemma trimEnd_head (s : string) :
  startsBlank s = false → startsBlank (trimEnd s) = false.
Proof.
  destruct s as [|a s]; simpl; [reflexivity|]. intros Ha.
  destruct (trimEnd s); [rewrite Ha|]; simpl; exact Ha.
Qed.

Lemma trimStart_fixed (s : string) : startsBlank s = false → trimStart s = s.
Proof. destruct s as [|a s]; simpl; [reflexivity|]. now intros ->. Qed.

Lemma trimEnd_fixed (s : string) : endsBlank s = false → trimEnd s = s.
Proof.
  induction s as [|a s IH]; [reflexivity|].
  destruct s as [|c r].
  - simpl. now intros ->.
  - intros H. change (endsBlank (String c r) = false) in H.
    change (trimEnd (String a (String c r)))
      with (match trimEnd (String c r) with
            | EmptyString => if isSpace a then "" else String a ""
            | r' => String a r'
            end).
    now rewrite (IH H).
Qed.

Lemma trim_edges (s : string) :
  startsBlank (trim s) = false ∧ endsBlank (trim s) = false.
Proof.
  unfold trim. split; [apply trimEnd_head, trimStart_head | apply trimEnd_tail].
Qed.

Lemma trim_fixed (s : string) :
  startsBlank s = false → endsBlank s = false → trim s = s.
Proof.
  intros Hs He. unfold trim. rewrite (trimStart_fixed s Hs).
  now apply trimEnd_fixed.
Qed.

Lemma trim_idempotent (s : string) : trim (trim s) = trim s.
Proof. destruct (trim_edges s). now apply trim_fixed. Qed.

Lemma extractText_is_trimmed (content : JsVal) :
  ∃ raw, extractText content = trim raw.
Proof.
  destruct content as [| |b|n|s|items|fields]; simpl;
    try (now exists ""); eauto.
  destruct (hasProp "text" fields); [eauto | now exists ""].
Qed.

Lemma clean_trim (s : string) : nonEmpty (trim s) = true → clean (trim s) = true.
Proof.
  intros H. unfold clean. destruct (trim_edges s) as [-> ->]. now rewrite H.
Qed.

Lemma startsBlank_append (a b : string) :
  nonEmpty a = true → startsBlank (a +:+ b) = startsBlank a.
Proof. destruct a as [|x a]; [discriminate|]. now rewrite append_cons. Qed.

Lemma endsBlank_append (a b : string) :
  nonEmpty b = true → endsBlank (a +:+ b) = endsBlank b.
Proof.
  intros Hb. induction a as [|x a IH]; [reflexivity|].
  rewrite append_cons.
  destruct (a +:+ b) as [|y r] eqn:E; [|exact IH].
  destruct a; [|discriminate]. rewrite append_nil_l in E. now subst b.
Qed.

(** Text with no white space at either end keeps all of its white space
    when it is joined around an empty fragment and trimmed. *)
Lemma trim_keeps_interior (a c : string) :
  nonEmpty a = true → startsBlank a = false →
  nonEmpty c = true → endsBlank c = false →
  trim (a +:+ "  " +:+ c) = a +:+ "  " +:+ c.
Proof.
  intros Ha Hsa Hc Hec. apply trim_fixed.
  - now rewrite startsBlank_append.
  - rewrite endsBlank_append; [now rewrite endsBlank_append|].
    now rewrite !append_cons.
Qed.

End Trimmed.

(** ** Text normalisation *)

Section Normalisation.

Lemma extractText_unrecognized (items : list JsVal) :
  forallb (fun e => negb (recognized e)) items = true →
  extractText (JArr items) = "".
Proof.
  intros H. unfold extractText, trim.
  now rewrite (trimStart_blank _ (join_unrecognized_blank items H)).
Qed.

(** A result block whose text normalises to the empty string is handled as
    if only [finishTicker] ran. *)
Lemma handleBlock_empty_summary content toolUseId w :
  extractText (nullish content (JStr "")) = "" →
  handleBlock (BOther content toolUseId) w
  = match toolUseId with
    | Some id =>
        if nonEmpty id
        then finishTicker id (label <$> toolRuns w !! id) w
        else w
    | None => w
    end.
Proof. intros H. simpl. now rewrite H. Qed.

(** C3. [extractText] maps the string [hello] and the object with text
    [hello] to [hello], and the sequence of [a], an object with text [b]
    and [c] to [a b c]; the empty sequence and every sequence [items] of
    unrecognised items give the empty string; and a result block whose
    content normalises to the empty string prints no result line: the
    block is handled by [finishTicker] alone, so no [LResult] line is
    added, and when its id is not registered the world is unchanged. *)
Theorem extractText_shapes
    (items : list JsVal) (content : JsVal) (toolUseId : option string)
    (w : World) :
  forallb (fun e => negb (recognized e)) items = true →
  extractText (nullish content (JStr "")) = "" →
  extractText (JStr "hello") = "hello"
  ∧ extractText (JObj [("text", JStr "hello")]) = "hello"
  ∧ extractText (JArr [JStr "a"; JObj [("text", JStr "b")]; JStr "c"])
    = "a b c"
  ∧ extractText (JArr []) = ""
  ∧ extractText (JArr items) = ""
  ∧ (∀ lbl s, LResult lbl s ∈ console (handleBlock (BOther content toolUseId) w)
              → LResult lbl s ∈ console w)
  ∧ ((∀ id, toolUseId = Some id → toolRuns w !! id = None) →
     handleBlock (BOther content toolUseId) w = w).
Proof.
  intros Hitems Hempty. repeat split; try reflexivity.
  - now apply extractText_unrecognized.
  - intros lbl s. rewrite (handleBlock_empty_summary _ _ _ Hempty).
    destruct toolUseId as [id|]; [|easy].
    destruct (nonEmpty id); [|easy].
    rewrite finishTicker_console.
    intros [Hin|Hin]%elem_of_app; [exact Hin|].
    destruct (toolRuns w !! id) as [e|]; simpl in Hin;
      [|now apply elem_of_nil in Hin].
    destruct (nonEmpty (label e));
      [apply list_elem_of_singleton in Hin; discriminate
      | now apply elem_of_nil in Hin].
  - intros Hnone. rewrite (handleBlock_empty_summary _ _ _ Hempty).
    destruct toolUseId as [id|]; [|reflexivity].
    destruct (nonEmpty id); [|reflexivity].
    now apply finishTicker_unknown, Hnone.
Qed.

Lemma extractText_shapes_witness :
  extractText (JArr [JNum 42; JNull; JArr [JStr "x"]]) = ""
  ∧ handleBlock (BOther (JArr [JBool true]) (Some "t9")) init = init.
Proof.
  pose proof (extractText_shapes [JNum 42; JNull; JArr [JStr "x"]]
                (JArr [JBool true]) (Some "t9") init
                ltac:(reflexivity) ltac:(reflexivity))
    as (_ & _ & _ & _ & H5 & _ & H7).
  split; [exact H5|]. apply H7.
  intros id _. apply lookup_empty.
Defined.

(** C10. In a sequence, an item [e] that is neither a string nor an object
    with a [text] field contributes the empty string, which still takes
    part in the join with single spaces; [trim] then removes the white
    space at both ends of the joined text and nothing else: the joined text
    is the result between a blank prefix and a blank suffix, and the result
    neither starts nor ends with white space.  So [a], [e], [c] normalise
    to the trimmed [a], two spaces, [c], with every space between the first
    and the last visible character kept, and the sequence of [a], 42 and
    [c] gives [a  c] with two interior spaces, not [a c], also when white
    space surrounds [a] and [c]. *)
Theorem extractText_keeps_empty_fragments
    (items : list JsVal) (e : JsVal) (a c : string) :
  recognized e = false →
  entryText e = ""
  ∧ extractText (JArr items) = trim (String.concat " " (map entryText items))
  ∧ (∃ before after,
       String.concat " " (map entryText items)
       = before +:+ extractText (JArr items) +:+ after
       ∧ blank before = true ∧ blank after = true)
  ∧ startsBlank (extractText (JArr items)) = false
  ∧ endsBlank (extractText (JArr items)) = false
  ∧ extractText (JArr [JStr a; e; JStr c]) = trim (a +:+ "  " +:+ c)
  ∧ (nonEmpty a = true → startsBlank a = false →
     nonEmpty c = true → endsBlank c = false →
     extractText (JArr [JStr a; e; JStr c]) = a +:+ "  " +:+ c)
  ∧ extractText (JArr [JStr "a"; JNum 42; JStr "c"]) = "a  c"
  ∧ extractText (JArr [JStr "a"; JNum 42; JStr "c"]) ≠ "a c"
  ∧ extractText (JArr [JStr "  a"; JNum 42; JStr "c "]) = "a  c"
  ∧ extractText (JArr [JStr (whiteSpace +:+ "a"); JNum 42;
                       JStr ("c" +:+ whiteSpace)])
    = "a  c"
  ∧ extractText (JArr [JNum 42; JStr "a b"; JNum 42]) = "a b".
Proof.
  intros He. pose proof (entryText_unrecognized e He) as Hempty.
  assert (Hjoin : extractText (JArr [JStr a; e; JStr c])
                  = trim (a +:+ "  " +:+ c)).
  { simpl. rewrite Hempty. reflexivity. }
  repeat split; try reflexivity; try discriminate.
  - exact Hempty.
  - apply trim_split.
  - apply trim_edges.
  - apply trim_edges.
  - exact Hjoin.
  - intros Ha Hsa Hc Hec. rewrite Hjoin. now apply trim_keeps_interior.
Qed.

Lemma extractText_keeps_empty_fragments_witness :
  recognized (JNum 42) = false
  ∧ extractText (JArr [JStr "left"; JNum 42; JStr "right"])
    = "left" +:+ "  " +:+ "right"
  ∧ startsBlank (extractText (JArr [JStr " x"; JNum 42])) = false
  ∧ endsBlank (extractText (JArr [JStr " x"; JNum 42])) = false.
Proof.
  split; [reflexivity|].
  pose proof (extractText_keeps_empty_fragments
                [JStr " x"; JNum 42] (JNum 42) "left" "right"
                ltac:(reflexivity))
    as (_ & _ & _ & Hs & He & _ & Hkeep & _).
  split; [apply Hkeep; reflexivity | split; [exact Hs | exact He]].
Defined.

End Normalisation.

(** ** Run statistics *)

Section Statistics.

Implicit Types (w : World).

(** The number of statistics lines on the console. *)
Lemma stats_app (a b : list Line) :
  length (filter (fun l => isStat l = true) (a ++ b))
  = length (filter (fun l => isStat l = true) a)
    + length (filter (fun l => isStat l = true) b).
Proof. now rewrite filter_app, length_app. Qed.

Lemma stats_finishTicker id lbl w :
  length (filter (fun l => isStat l = true) (console (finishTicker id lbl w)))
  = length (filter (fun l => isStat l = true) (console w)).
Proof.
  rewrite finishTicker_console, stats_app.
  destruct (toolRuns w !! id) as [e|], lbl as [l|]; simpl; try lia.
  destruct (nonEmpty l); simpl; lia.
Qed.

Lemma stats_handleBlock block w :
  length (filter (fun l => isStat l = true) (console (handleBlock block w)))
  = length (filter (fun l => isStat l = true) (console w)).
Proof.
  destruct block as [text|id name input|content toolUseId]; simpl.
  - rewrite stats_app. simpl. lia.
  - assert (Hu : ∀ o, length (filter (fun l => isStat l = true)
                                (console (usingTool o name w)))
                      = length (filter (fun l => isStat l = true)
                                  (console w))).
    { intros o. unfold usingTool. simpl. rewrite stats_app.
      destruct o as [i|]; [destruct (nonEmpty i)|]; simpl; lia. }
    destruct input as [inp|], id as [i|]; try apply Hu.
    destruct (subagent_type inp) as [sub|]; [|apply Hu].
    destruct (nonEmpty sub && nonEmpty i); [|apply Hu].
    rewrite delegate_world. simpl. rewrite stats_app. simpl. lia.
  - set (w1 := if nonEmpty _ then _ else _).
    assert (H1 : length (filter (fun l => isStat l = true) (console w1))
                 = length (filter (fun l => isStat l = true) (console w))).
    { subst w1. destruct (nonEmpty _); [|reflexivity].
      simpl. rewrite stats_app. simpl. lia. }
    destruct toolUseId as [id|]; [|exact H1].
    destruct (nonEmpty id); [|exact H1].
    now rewrite stats_finishTicker.
Qed.

Lemma stats_blocks content w :
  length (filter (fun l => isStat l = true)
            (console (fold_left (fun w b => handleBlock b w) content w)))
  = length (filter (fun l => isStat l = true) (console w)).
Proof.
  revert w. induction content as [|b content IH]; intros w; simpl;
    [reflexivity|].
  now rewrite IH, stats_handleBlock.
Qed.

Lemma stats_handleStreamEvent event w w' :
  handleStreamEvent event w = Done w' →
  length (filter (fun l => isStat l = true) (console w'))
  = length (filter (fun l => isStat l = true) (console w)).
Proof.
  unfold handleStreamEvent.
  destruct (String.prefix _ _); [|now intros [= <-]].
  match goal with
  | |- context [if ?c then optMember ?k ?v else ?x] =>
      destruct (if c then optMember k v else x) as [| | | |p| |];
        try discriminate
  end.
  set (w1 := if nonEmpty _ then _ else _).
  assert (H1 : length (filter (fun l => isStat l = true) (console w1))
               = length (filter (fun l => isStat l = true) (console w))).
  { subst w1. destruct (nonEmpty _); [|reflexivity].
    simpl. rewrite stats_app. simpl. lia. }
  destruct (prop "tool_use_id" event); try (now intros [= <-]).
  destruct (_ && _); intros [= <-]; [|exact H1].
  now rewrite stats_finishTicker.
Qed.

Lemma stats_step i w w' :
  step i w = Done w' →
  length (filter (fun l => isStat l = true) (console w'))
  = length (filter (fun l => isStat l = true) (console w))
    + (if isResultMessage i then 2 else 0).
Proof.
  destruct i as [t [content|event|d c|]|t h]; simpl.
  - intros [= <-]. rewrite stats_blocks. simpl. lia.
  - intros H%stats_handleStreamEvent. simpl in H. lia.
  - intros [= <-]. simpl. rewrite !stats_app. simpl. lia.
  - intros [= <-]. simpl. lia.
  - intros [= <-]. unfold fire. simpl.
    destruct (intervals w !! h); simpl; [|lia].
    rewrite stats_app. simpl. lia.
Qed.

Lemma stats_loop inputs w w' :
  loop inputs w = Done w' →
  length (filter (fun l => isStat l = true) (console w'))
  = length (filter (fun l => isStat l = true) (console w))
    + 2 * length (filter (fun i => isResultMessage i = true) inputs).
Proof.
  revert w. induction inputs as [|i inputs IH]; intros w; simpl.
  - intros [= <-]. lia.
  - destruct (step i w) as [w1|w1 err] eqn:Hs; simpl; [|discriminate].
    intros Hl. rewrite (IH _ Hl), (stats_step _ _ _ Hs).
    rewrite filter_cons.
    destruct (decide (isResultMessage i = true)) as [Hr|Hr].
    + rewrite Hr. simpl. lia.
    + apply not_true_is_false in Hr. rewrite Hr. lia.
Qed.

(** Shape of the rendering of the cost. *)
Lemma toFixed4_shape (x : Q) :
  ∃ sign whole fraction,
    toFixed4 x = sign +:+ whole +:+ "." +:+ fraction
    ∧ (sign = "" ∨ sign = "-")
    ∧ whole = decimal (nearest4 x / 10000)
    ∧ fraction = digits4 (nearest4 x mod 10000)
    ∧ String.length fraction = 4 ∧ allDigits fraction = true.
Proof.
  exists (if (Qnum x <? 0)%Z then "-" else ""),
    (decimal (nearest4 x / 10000)), (digits4 (nearest4 x mod 10000)).
  split; [reflexivity|]. split; [destruct (_ <? _)%Z; auto|].
  split; [reflexivity|]. split; [reflexivity|]. apply digits4_shape.
Qed.

(** [nearest4 x] is the integer nearest to the magnitude of [x] times
    10^4, the larger one when two are equally near. *)
Lemma nearest4_spec (x : Q) :
  (2 * Z.pos (Qden x) * nearest4 x - Z.pos (Qden x)
   ≤ 2 * Z.abs (Qnum x) * 10000
   < 2 * Z.pos (Qden x) * nearest4 x + Z.pos (Qden x))%Z.
Proof.
  unfold nearest4.
  pose proof (Z.div_mod (2 * Z.abs (Qnum x) * 10000 + Z.pos (Qden x))
                (2 * Z.pos (Qden x)) ltac:(lia)) as Hdm.
  pose proof (Z.mod_pos_bound (2 * Z.abs (Qnum x) * 10000 + Z.pos (Qden x))
                (2 * Z.pos (Qden x)) ltac:(lia)) as Hb.
  lia.
Qed.

End Statistics.

Section RunComplete.

(** C9, as the code has it.  A result message prints two lines, not one:
    first the total duration, then the total cost with exactly four digits
    after the decimal point; it changes neither the registry nor the
    timers.  Nothing else prints such lines, so after any loop the console
    holds two more of them for each result message of the input, and a
    stream with one result message reports each statistic once.  The cost
    is rounded to the nearest multiple of 10^-4, halves away from zero. *)
Theorem result_message_statistics
    (inputs : list Input) (w0 w : World) (now d : Z) (c : Q) :
  loop inputs w0 = Done w →
  (∃ w', step (IMessage now (MResult d c)) w = Done w'
         ∧ console w' = console w ++ [LDuration d; LCost c]
         ∧ toolRuns w' = toolRuns w ∧ intervals w' = intervals w)
  ∧ render (LDuration d) = nl +:+ "⏱️ Total duration: " +:+ decimal d +:+ "ms"
  ∧ (∃ sign whole fraction,
       render (LCost c)
       = "💰 Total cost: $" +:+ sign +:+ whole +:+ "." +:+ fraction
       ∧ (sign = "" ∨ sign = "-")
       ∧ whole = decimal (nearest4 c / 10000)
       ∧ fraction = digits4 (nearest4 c mod 10000)
       ∧ String.length fraction = 4 ∧ allDigits fraction = true)
  ∧ (2 * Z.pos (Qden c) * nearest4 c - Z.pos (Qden c)
     ≤ 2 * Z.abs (Qnum c) * 10000
     < 2 * Z.pos (Qden c) * nearest4 c + Z.pos (Qden c))%Z
  ∧ length (filter (fun l => isStat l = true) (console w))
    = length (filter (fun l => isStat l = true) (console w0))
      + 2 * length (filter (fun i => isResultMessage i = true) inputs).
Proof.
  intros Hloop. split; [|split; [|split; [|split]]].
  - eexists. split; [reflexivity|]. simpl. rewrite <- app_assoc. easy.
  - reflexivity.
  - destruct (toFixed4_shape c) as (sign & whole & fraction & H & Hrest).
    exists sign, whole, fraction. split; [|exact Hrest].
    simpl. now rewrite H.
  - apply nearest4_spec.
  - now apply stats_loop.
Qed.

Lemma result_message_statistics_witness :
  length (filter (fun l => isStat l = true)
            (console (worldOf (loop scenario init)))) = 2.
Proof.
  destruct (result_message_statistics scenario init
              (worldOf (loop scenario init)) 9000%Z 1200%Z (341 # 10000)
              ltac:(vm_compute; reflexivity)) as (_ & _ & _ & _ & H).
  rewrite H. reflexivity.
Defined.

(** C9 as stated fails: the result message with duration 1200 and cost
    0.0341 prints two lines, one with the duration and one with the cost,
    so no single line reports both. *)
Lemma result_message_prints_two_lines :
  ∃ w, step (IMessage 0 (MResult 1200 (341 # 10000))) init = Done w
       ∧ map render (console w)
         = [nl +:+ "⏱️ Total duration: 1200ms"; "💰 Total cost: $0.0341"]
       ∧ ¬ (∃ l, console w = console init ++ [l]).
Proof.
  eexists. split; [reflexivity|]. split; [reflexivity|].
  intros [l Hl]. discriminate Hl.
Qed.

End RunComplete.

(** ** Dispatch *)

Section Dispatch.

Implicit Types (w : World) (id : string).

Lemma contains_middle (a part b : string) : contains part (a +:+ part +:+ b).
Proof. now exists a, b. Qed.

Lemma usingTool_world id name w :
  nonEmpty id = true →
  usingTool (Some id) name w
  = {| toolRuns := <[id := {| label := name; start := clock w;
                              ticker := None |}]> (toolRuns w);
       intervals := intervals w; nextHandle := nextHandle w;
       setCalls := setCalls w; clearCalls := clearCalls w;
       clock := clock w; console := console w ++ [LUsingTool name] |}.
Proof. intros H. unfold usingTool. now rewrite H. Qed.

Lemma handleBlock_role id name input sub w :
  nonEmpty id = true → roleOf input = Some sub →
  ∃ inp, input = Some inp
         ∧ handleBlock (BToolUse (Some id) name input) w
           = delegate id sub inp w.
Proof.
  intros Hid. unfold roleOf. destruct input as [inp|]; [|discriminate].
  destruct (subagent_type inp) as [s|] eqn:Hs; [|discriminate].
  destruct (nonEmpty s) eqn:Hn; [|discriminate]. intros [= <-].
  exists inp. split; [reflexivity|]. simpl. now rewrite Hs, Hn, Hid.
Qed.

Lemma handleBlock_no_role (o : option string) name input w :
  roleOf input = None →
  handleBlock (BToolUse o name input) w = usingTool o name w.
Proof.
  unfold roleOf. simpl. destruct input as [inp|], o as [i|]; try reflexivity.
  destruct (subagent_type inp) as [s|]; [|reflexivity].
  destruct (nonEmpty s); [discriminate | reflexivity].
Qed.

Lemma contextSuffix_contains (inp : TaskInput) (c before : string) :
  contextOf (Some inp) = Some c →
  contains (String.substring 0 90 c) (before +:+ contextSuffix inp).
Proof.
  unfold contextOf, contextSuffix. intros ->.
  destruct (nonEmpty c) eqn:Hc.
  - rewrite <- append_assoc. apply contains_middle.
  - destruct c; [|discriminate]. exists before, "". reflexivity.
Qed.

(** C2, as the code has it.  A [tool_use] block with a non-empty id
    registers an entry started at the current time.  When its input carries
    a delegated role, the entry is labelled with the role, one line naming
    the role and the first 90 characters of the context is printed, and an
    interval of period 5000 is started, which reports the time elapsed
    since the dispatch each time it fires and no longer fires once the
    entry has been finished.  When the input carries no role, the entry is
    labelled with the tool name, one line naming the tool is printed, and
    no interval is started. *)
Theorem dispatch_registers
    (w : World) (id name : string) (input : option TaskInput) :
  nonEmpty id = true →
  let w' := handleBlock (BToolUse (Some id) name input) w in
  match roleOf input with
  | Some sub =>
      toolRuns w'
      = <[id := {| label := sub; start := clock w;
                   ticker := Some (nextHandle w) |}]> (toolRuns w)
      ∧ (∃ line, console w' = console w ++ [line]
                 ∧ contains sub (render line)
                 ∧ ∀ c, contextOf input = Some c →
                        contains (String.substring 0 90 c) (render line))
      ∧ intervals w'
        = <[nextHandle w := {| i_label := sub; i_start := clock w;
                               i_delay := 5000 |}]> (intervals w)
      ∧ setCalls w' = S (setCalls w) ∧ clearCalls w' = clearCalls w
      ∧ (∀ t, console (fire (nextHandle w) (setClock t w'))
              = console w'
                ++ [LStillWorking sub (roundSeconds (t - clock w))])
      ∧ (∀ lbl, fire (nextHandle w) (finishTicker id lbl w')
                = finishTicker id lbl w')
  | None =>
      toolRuns w'
      = <[id := {| label := name; start := clock w; ticker := None |}]>
          (toolRuns w)
      ∧ console w' = console w ++ [LUsingTool name]
      ∧ contains name (render (LUsingTool name))
      ∧ intervals w' = intervals w
      ∧ setCalls w' = setCalls w ∧ clearCalls w' = clearCalls w
  end.
Proof.
  intros Hid w'. destruct (roleOf input) as [sub|] eqn:Hrole.
  - destruct (handleBlock_role id name input sub w Hid Hrole)
      as (inp & -> & Hw). subst w'. rewrite Hw, delegate_world. simpl.
    repeat split.
    + exists (LDelegating sub (contextSuffix inp)).
      split; [reflexivity|]. split.
      * simpl. rewrite <- append_assoc. apply contains_middle.
      * intros c Hc. simpl.
        rewrite <- (append_assoc sub), <- (append_assoc "🚀 Delegating to "),
          <- (append_assoc nl).
        now apply contextSuffix_contains.
    + intros t. unfold fire. simpl. now rewrite lookup_insert_eq.
    + intros lbl. unfold fire.
      erewrite finishTicker_known by (simpl; apply lookup_insert_eq).
      simpl. now rewrite lookup_delete_eq.
  - subst w'. rewrite (handleBlock_no_role _ _ _ _ Hrole).
    rewrite (usingTool_world _ _ _ Hid). simpl.
    repeat split. exists (nl +:+ "🚀 Using tool: "), "".
    now rewrite append_nil_r, append_assoc.
Qed.

Lemma dispatch_registers_witness :
  setCalls (handleBlock (taskBlock "t1" "coder" "build it") init) = 1
  ∧ setCalls (handleBlock (BToolUse (Some "t2") "Read" None) init) = 0.
Proof.
  split.
  - apply (dispatch_registers init "t1" "Task"
             (Some {| subagent_type := Some "coder";
                      description := Some "build it"; prompt := None |})).
    reflexivity.
  - apply (dispatch_registers init "t2" "Read" None). reflexivity.
Defined.

(** C2 as stated fails: a dispatch whose payload carries no delegated role
    is registered under the tool name, its line names the tool and leaves
    the context out, and no timer is started for it. *)
Lemma generic_dispatch_starts_no_timer :
  let w := handleBlock
             (BToolUse (Some "t1") "Bash"
                (Some {| subagent_type := None;
                         description := Some "list files";
                         prompt := None |})) init in
  toolRuns w !! "t1" = Some {| label := "Bash"; start := 0; ticker := None |}
  ∧ map render (console w) = [nl +:+ "🚀 Using tool: Bash"]
  ∧ setCalls w = setCalls init
  ∧ intervals w = ∅
  ∧ ¬ (∃ e h, toolRuns w !! "t1" = Some e ∧ ticker e = Some h).
Proof.
  repeat split. intros (e & h & He & Ht).
  vm_compute in He. injection He as <-. discriminate Ht.
Qed.

End Dispatch.

(** ** Inputs that do not dispatch an id *)

Section OtherInputs.

Implicit Types (w : World) (id : string) (e : Entry).

(** An input that is not a dispatch under [id] leaves the entry of [id] as
    it is or removes it. *)
Lemma handleBlock_lookup id block w :
  blockDispatches id block = false →
  toolRuns (handleBlock block w) !! id = toolRuns w !! id
  ∨ toolRuns (handleBlock block w) !! id = None.
Proof.
  intros Hb. destruct block as [text|o name input|content toolUseId]; simpl.
  - now left.
  - left.
    assert (Hu : toolRuns (usingTool o name w) !! id = toolRuns w !! id).
    { unfold usingTool. simpl. destruct o as [i|]; [|reflexivity].
      destruct (nonEmpty i); [|reflexivity]. simpl.
      simpl in Hb. apply String.eqb_neq in Hb. now rewrite lookup_insert_ne. }
    destruct input as [inp|], o as [i|]; try exact Hu.
    destruct (subagent_type inp) as [sub|]; [|exact Hu].
    destruct (nonEmpty sub && nonEmpty i); [|exact Hu].
    rewrite delegate_world. simpl.
    simpl in Hb. apply String.eqb_neq in Hb. now rewrite lookup_insert_ne.
  - set (w1 := if nonEmpty _ then _ else _).
    assert (H1 : toolRuns w1 = toolRuns w).
    { subst w1. now destruct (nonEmpty _). }
    destruct toolUseId as [i|]; [|left; now rewrite H1].
    destruct (nonEmpty i); [|left; now rewrite H1].
    rewrite finishTicker_runs, H1, lookup_delete.
    destruct (decide (i = id)); auto.
Qed.

Lemma blocks_lookup id content w :
  existsb (blockDispatches id) content = false →
  toolRuns (fold_left (fun w b => handleBlock b w) content w) !! id
  = toolRuns w !! id
  ∨ toolRuns (fold_left (fun w b => handleBlock b w) content w) !! id = None.
Proof.
  revert w. induction content as [|b content IH]; intros w; simpl;
    [now left|].
  intros [Hb Hc]%orb_false_elim.
  destruct (IH (handleBlock b w) Hc) as [H|H]; [|now right].
  rewrite H. now apply handleBlock_lookup.
Qed.

Lemma handleStreamEvent_lookup id event w :
  toolRuns (worldOf (handleStreamEvent event w)) !! id = toolRuns w !! id
  ∨ toolRuns (worldOf (handleStreamEvent event w)) !! id = None.
Proof.
  unfold handleStreamEvent.
  destruct (String.prefix _ _); [|now left].
  match goal with
  | |- context [if ?c then optMember ?k ?v else ?x] =>
      destruct (if c then optMember k v else x); try (now left)
  end.
  set (w1 := if nonEmpty _ then _ else _).
  assert (H1 : toolRuns w1 = toolRuns w).
  { subst w1. now destruct (nonEmpty _). }
  destruct (prop "tool_use_id" event) as [| | | |i| |];
    try (left; simpl; now rewrite H1).
  destruct (_ && _); simpl; [|left; now rewrite H1].
  rewrite finishTicker_runs, H1, lookup_delete.
  destruct (decide (i = id)); auto.
Qed.

Lemma step_lookup id i w :
  dispatches id i = false →
  toolRuns (worldOf (step i w)) !! id = toolRuns w !! id
  ∨ toolRuns (worldOf (step i w)) !! id = None.
Proof.
  intros Hd. destruct i as [t [content|event|d c|]|t h]; simpl.
  - now apply (blocks_lookup id content (setClock t w)).
  - apply (handleStreamEvent_lookup id event (setClock t w)).
  - now left.
  - now left.
  - left. unfold fire. simpl. now destruct (intervals w !! h).
Qed.

Lemma loop_lookup id inputs w :
  Forall (fun i => dispatches id i = false) inputs →
  toolRuns (worldOf (loop inputs w)) !! id = toolRuns w !! id
  ∨ toolRuns (worldOf (loop inputs w)) !! id = None.
Proof.
  intros H. revert w. induction H as [|i inputs Hi _ IH]; intros w; simpl;
    [now left|].
  pose proof (step_lookup id i w Hi) as Hs.
  destruct (step i w) as [w1|w1 err]; simpl in *; [|exact Hs].
  destruct (IH w1) as [H1|H1]; [|now right].
  rewrite H1. exact Hs.
Qed.

(** An id that no input dispatched is not registered. *)
Lemma never_dispatched_unregistered id inputs w :
  Forall (fun i => dispatches id i = false) inputs →
  loop inputs init = Done w → toolRuns w !! id = None.
Proof.
  intros H Hl. destruct (loop_lookup id inputs init H) as [H1|H1];
    rewrite Hl in H1; simpl in H1; [|exact H1].
  rewrite H1. apply lookup_empty.
Qed.

Lemma labelOf_unknown id w :
  toolRuns w !! id = None → labelOf (Some id) w = "subagent".
Proof. intros H. unfold labelOf. rewrite H. now destruct (nonEmpty id). Qed.

(** A result block for an id that is not registered prints its text, if
    any, under the fallback label and does nothing else. *)
Lemma handleBlock_unknown id content w :
  toolRuns w !! id = None →
  handleBlock (BOther content (Some id)) w
  = if nonEmpty (extractText (nullish content (JStr "")))
    then log (LResult "subagent" (extractText (nullish content (JStr "")))) w
    else w.
Proof.
  intros H. unfold handleBlock. rewrite (labelOf_unknown _ _ H).
  destruct (nonEmpty (extractText _)), (nonEmpty id);
    try reflexivity; now rewrite finishTicker_unknown.
Qed.

(** A stream event for an id that is not registered prints its text, if
    any, under the fallback label and does nothing else, unless it throws;
    and it throws only if [output_text_delta.text] is mistyped. *)
Lemma handleStreamEvent_unknown id event w :
  prop "tool_use_id" event = JStr id → toolRuns w !! id = None →
  match handleStreamEvent event w with
  | Done w' => w' = w ∨ ∃ p, w' = log (LUpdate "subagent" p) w
  | Thrown w' _ => w' = w ∧ outputTextTyped event = false
  end.
Proof.
  intros Hid Hnone. unfold handleStreamEvent, outputTextTyped.
  rewrite Hid. cbv beta iota zeta. rewrite (labelOf_unknown _ _ Hnone).
  destruct (String.prefix _ _); [|now left].
  destruct (optMember "text" (prop "output_text_delta" event))
    as [| |b|n|s|items|fields]; simpl;
    destruct (nonEmpty (deltaProgress (prop "delta" event))); simpl;
    try destruct b; try destruct (n =? 0)%Z; simpl;
    try destruct (nonEmpty s); simpl; try (split; reflexivity);
    match goal with
    | |- context [nonEmpty (trim ?p)] =>
        destruct (nonEmpty (trim p)) eqn:Hp;
        destruct (nonEmpty id && _); simpl;
        rewrite ?finishTicker_unknown by exact Hnone; eauto
    end.
Qed.

End OtherInputs.

(** ** Progress and completion *)

Section Completion.

Implicit Types (w : World) (id : string) (e : Entry).

Lemma handleStreamEvent_typed event w :
  outputTextTyped event = true → ∃ w', handleStreamEvent event w = Done w'.
Proof.
  unfold handleStreamEvent, outputTextTyped.
  destruct (String.prefix _ _); [|eauto].
  destruct (optMember "text" (prop "output_text_delta" event));
    try discriminate; intros _; simpl; rewrite ?andb_false_r;
    try destruct (_ && _); cbv beta iota;
    destruct (prop "tool_use_id" event); eauto;
    destruct (_ && _); eauto.
Qed.

Lemma step_typed t m w :
  messageTyped m = true → ∃ w', step (IMessage t m) w = Done w'.
Proof.
  destruct m as [content|event|d c|]; simpl; eauto.
  apply handleStreamEvent_typed.
Qed.

(** A completion for [id] leaves [id] unregistered. *)
Lemma completion_removes id t m w w' :
  nonEmpty id = true → completes id m = true →
  step (IMessage t m) w = Done w' → toolRuns w' !! id = None.
Proof.
  intros Hid Hc. destruct m as [content|event|d c|]; simpl in *;
    try discriminate.
  - destruct content as [|[text|o name input|content' [i|]] [|b rest]];
      try discriminate.
    apply String.eqb_eq in Hc as ->. intros [= <-]. simpl. rewrite Hid.
    apply finishTicker_removes.
  - unfold handleStreamEvent.
    destruct (prop "type" event) as [| | | |ty| |]; try discriminate.
    destruct (prop "tool_use_id" event) as [| | | |i| |]; try discriminate.
    apply andb_prop in Hc as [->%String.eqb_eq ->%String.eqb_eq].
    rewrite Hid. simpl.
    match goal with
    | |- context [if ?c then optMember ?k ?v else ?x] =>
        destruct (if c then optMember k v else x); try discriminate
    end.
    intros [= <-]. apply finishTicker_removes.
Qed.

(** A completion for an id that is not registered: the world is unchanged
    but for at most one line, printed under the fallback label. *)
Lemma completion_unknown id t m w :
  completes id m = true → messageTyped m = true →
  toolRuns w !! id = None →
  ∃ w', step (IMessage t m) w = Done w'
        ∧ toolRuns w' = toolRuns w ∧ intervals w' = intervals w
        ∧ setCalls w' = setCalls w ∧ clearCalls w' = clearCalls w
        ∧ (console w' = console w
           ∨ (∃ s, console w' = console w ++ [LResult "subagent" s])
           ∨ (∃ p, console w' = console w ++ [LUpdate "subagent" p])).
Proof.
  intros Hc Ht Hnone. destruct m as [content|event|d c|]; simpl in *;
    try discriminate.
  - destruct content as [|[text|o name input|content' [i|]] [|b rest]];
      try discriminate.
    apply String.eqb_eq in Hc as ->. eexists. split; [reflexivity|].
    cbn [fold_left].
    rewrite handleBlock_unknown by exact Hnone.
    destruct (nonEmpty _); simpl; eauto 10.
  - destruct (prop "tool_use_id" event) as [| | | |i| |] eqn:Hi;
      try (destruct (prop "type" event); discriminate).
    assert (i = id) as ->.
    { destruct (prop "type" event); try discriminate.
      now apply andb_prop in Hc as [_ ->%String.eqb_eq]. }
    pose proof (handleStreamEvent_unknown id event (setClock t w) Hi Hnone)
      as Hu.
    destruct (handleStreamEvent_typed event (setClock t w) Ht) as [w' Hw'].
    rewrite Hw' in Hu. exists w'. split; [exact Hw'|].
    destruct Hu as [->|[p ->]]; simpl; eauto 10.
Qed.


(** Let [id] be an id that no input of the run so far dispatched.  Then
    [id] is not registered; a result block for [id] whose text is
    converted leaves the registry and the timers as they are, and prints
    at most the result text, under the label [subagent]; a stream event
    for [id] leaves the registry as it is and, when its
    [output_text_delta.text] has its declared type, leaves the timers as
    they are and prints at most one update line, under the label
    [subagent]. *)
Lemma unknown_id_tolerated
    (inputs : list Input) (w : World) (id : string) (now : Z)
    (content : JsVal) (event : list (string * JsVal)) :
  Forall (fun i => dispatches id i = false) inputs →
  loop inputs init = Done w →
  prop "tool_use_id" event = JStr id →
  toolRuns w !! id = None
  ∧ (∃ w', step (IMessage now (MAssistant [BOther content (Some id)])) w
           = Done w'
           ∧ toolRuns w' = toolRuns w ∧ intervals w' = intervals w
           ∧ setCalls w' = setCalls w ∧ clearCalls w' = clearCalls w
           ∧ console w'
             = console w ++
               (if nonEmpty (extractText (nullish content (JStr "")))
                then [LResult "subagent"
                        (extractText (nullish content (JStr "")))]
                else []))
  ∧ toolRuns (worldOf (step (IMessage now (MStreamEvent event)) w))
    = toolRuns w
  ∧ (outputTextTyped event = true →
     ∃ w', step (IMessage now (MStreamEvent event)) w = Done w'
           ∧ toolRuns w' = toolRuns w ∧ intervals w' = intervals w
           ∧ setCalls w' = setCalls w ∧ clearCalls w' = clearCalls w
           ∧ (console w' = console w
              ∨ ∃ p, console w' = console w ++ [LUpdate "subagent" p])).
Proof.
  intros Hnever Hloop Hid.
  pose proof (never_dispatched_unregistered id inputs w Hnever Hloop) as Hnone.
  pose proof (handleStreamEvent_unknown id event (setClock now w) Hid Hnone)
    as Hu.
  split; [exact Hnone|]. split; [|split].
  - exists (handleBlock (BOther content (Some id)) (setClock now w)).
    split; [reflexivity|].
    rewrite handleBlock_unknown by exact Hnone.
    destruct (nonEmpty _); simpl; now rewrite ?app_nil_r.
  - simpl. destruct (handleStreamEvent event (setClock now w)) as [w'|w' err].
    + now destruct Hu as [->|[p ->]].
    + now destruct Hu as [-> _].
  - intros Ht. simpl.
    destruct (handleStreamEvent_typed event (setClock now w) Ht) as [w' Hw'].
    rewrite Hw' in Hu. exists w'. split; [exact Hw'|].
    destruct Hu as [->|[p ->]]; simpl; eauto 10.
Qed.

Lemma unknown_id_tolerated_witness :
  toolRuns (worldOf (loop scenario init)) !! "ghost" = None
  ∧ toolRuns (worldOf (step (IMessage 9000
                 (MStreamEvent [("type", JStr "tool_result");
                                ("tool_use_id", JStr "ghost");
                                ("delta", JStr "late")]))
              (worldOf (loop scenario init))))
    = toolRuns (worldOf (loop scenario init)).
Proof.
  destruct (unknown_id_tolerated scenario (worldOf (loop scenario init))
              "ghost" 9000 (JStr "late")
              [("type", JStr "tool_result"); ("tool_use_id", JStr "ghost");
               ("delta", JStr "late")]
              ltac:(repeat constructor) ltac:(vm_compute; reflexivity)
              ltac:(reflexivity)) as (H1 & _ & H3 & _).
  split; [exact H1 | exact H3].
Defined.

End Completion.

Section Repeated.

Implicit Types (w : World) (id : string) (e : Entry).

(** After a completion for [id], and whatever inputs follow that do not
    dispatch [id] again, [id] is not registered; a second completion for
    [id] whose [output_text_delta.text] has its declared type is then
    handled as one for an unknown id: the registry and the timers are
    untouched, at most the text is printed, under the fallback label, and
    no further [LReturned] line appears. *)
Lemma repeated_completion
    (w : World) (id : string) (t1 t2 : Z) (m1 m2 : Message)
    (between : list Input) :
  nonEmpty id = true →
  completes id m1 = true → messageTyped m1 = true →
  completes id m2 = true → messageTyped m2 = true →
  Forall (fun i => dispatches id i = false) between →
  ∃ w1, step (IMessage t1 m1) w = Done w1
        ∧ toolRuns w1 !! id = None
        ∧ ∀ w1', loop between w1 = Done w1' →
            ∃ w2, step (IMessage t2 m2) w1' = Done w2
                  ∧ toolRuns w2 = toolRuns w1'
                  ∧ intervals w2 = intervals w1'
                  ∧ setCalls w2 = setCalls w1'
                  ∧ clearCalls w2 = clearCalls w1'
                  ∧ (console w2 = console w1'
                     ∨ (∃ s, console w2
                             = console w1' ++ [LResult "subagent" s])
                     ∨ (∃ p, console w2
                             = console w1' ++ [LUpdate "subagent" p]))
                  ∧ (∀ l, l ∈ console w2 → isReturned l = true →
                          l ∈ console w1').
Proof.
  intros Hid Hc1 Ht1 Hc2 Ht2 Hbetween.
  destruct (step_typed t1 m1 w Ht1) as [w1 Hw1]. exists w1.
  pose proof (completion_removes id t1 m1 w w1 Hid Hc1 Hw1) as Hnone.
  split; [exact Hw1|]. split; [exact Hnone|]. intros w1' Hloop.
  assert (Hnone' : toolRuns w1' !! id = None).
  { destruct (loop_lookup id between w1 Hbetween) as [H|H];
      rewrite Hloop in H; simpl in H; congruence. }
  destruct (completion_unknown id t2 m2 w1' Hc2 Ht2 Hnone')
    as (w2 & Hw2 & Hr & Hi & Hs & Hcl & Hcon).
  exists w2. repeat (split; [assumption|]).
  intros l Hin Hret.
  destruct Hcon as [Heq|[[s Heq]|[p Heq]]]; rewrite Heq in Hin;
    [exact Hin| |];
    apply elem_of_app in Hin as [Hin|Hin]; try exact Hin;
    apply list_elem_of_singleton in Hin; subst l; discriminate.
Qed.

Lemma repeated_completion_witness :
  ∃ w1, step (IMessage 7400 (MAssistant [BOther (JStr "done") (Some "t1")]))
             (worldOf (loop [IMessage 0
                               (MAssistant [taskBlock "t1" "coder" "go"])]
                            init))
        = Done w1
        ∧ toolRuns w1 !! "t1" = None.
Proof.
  destruct (repeated_completion
              (worldOf (loop [IMessage 0
                                (MAssistant [taskBlock "t1" "coder" "go"])]
                             init))
              "t1" 7400 7500
              (MAssistant [BOther (JStr "done") (Some "t1")])
              (MAssistant [BOther (JStr "done") (Some "t1")])
              [ITick 7450 0]
              ltac:(reflexivity) ltac:(reflexivity) ltac:(reflexivity)
              ltac:(reflexivity) ltac:(reflexivity)
              ltac:(repeat constructor)) as (w1 & H1 & H2 & _).
  exists w1. split; [exact H1 | exact H2].
Defined.





End Repeated.

(** ** Elapsed time *)

Section Elapsed.

Implicit Types (w : World) (id : string) (e : Entry).





End Elapsed.

(** ** The end of the run *)

Section RunEnd.

Implicit Types (w : World) (id : string) (e : Entry).

(** After a run that does not throw, the registry is empty, and the calls
    of [setInterval] are the calls of [clearInterval] plus the intervals
    still live. *)
Lemma run_accounting inputs w :
  run inputs = Done w →
  toolRuns w = ∅ ∧ setCalls w = clearCalls w + size (intervals w).
Proof.
  unfold run. pose proof (coherent_loop inputs init coherent_init) as Hcoh.
  destruct (loop inputs init) as [w1|w1 err]; [|discriminate].
  intros [= <-]. simpl in *. split; [apply cleanup_empties|].
  apply (coh_count _ (coherent_cleanup w1 Hcoh)).
Qed.

Lemma owned_same w w' :
  toolRuns w' = toolRuns w → intervals w' = intervals w →
  owned w → owned w'.
Proof. unfold owned. intros -> ->. auto. Qed.

Lemma owned_finishTicker id lbl w : owned w → owned (finishTicker id lbl w).
Proof.
  intros Hw. destruct (toolRuns w !! id) as [e|] eqn:He;
    [|now rewrite finishTicker_unknown].
  rewrite (finishTicker_known _ _ _ _ He). intros h. simpl. intros Hh.
  assert (Hlive : is_Some (intervals w !! h)).
  { destruct (ticker e); [|exact Hh].
    now apply lookup_delete_is_Some in Hh. }
  destruct (Hw h Hlive) as (id' & e' & He' & Ht').
  exists id', e'. split; [|exact Ht'].
  rewrite lookup_delete_ne; [exact He'|]. intros <-.
  rewrite He in He'. injection He' as <-. rewrite Ht' in Hh.
  apply lookup_delete_is_Some in Hh as [Hne _]. now apply Hne.
Qed.

(** A block keeps every live interval owned when the id it dispatches
    under, if any, is not registered. *)
Lemma owned_handleBlock block w :
  (∀ id, id ∈ blockIds block → toolRuns w !! id = None) →
  owned w → owned (handleBlock block w).
Proof.
  intros Hfresh Hw.
  destruct block as [text|o name input|content toolUseId]; simpl.
  - now apply (owned_same w).
  - assert (Hu : owned (usingTool o name w)).
    { unfold usingTool. apply (owned_same (match o with
        | Some i => if nonEmpty i
                    then withRuns (insert i {| label := name;
                                               start := clock w;
                                               ticker := None |}) w
                    else w
        | None => w end)); try reflexivity.
      destruct o as [i|]; [|exact Hw].
      destruct (nonEmpty i); [|exact Hw].
      intros h Hh. destruct (Hw h Hh) as (id' & e' & He' & Ht').
      exists id', e'. split; [|exact Ht']. simpl.
      rewrite lookup_insert_ne; [exact He'|]. intros <-.
      rewrite Hfresh in He' by (simpl; left). discriminate. }
    destruct input as [inp|], o as [i|]; try exact Hu.
    destruct (subagent_type inp) as [sub|]; [|exact Hu].
    destruct (nonEmpty sub && nonEmpty i); [|exact Hu].
    rewrite delegate_world. intros h. simpl.
    intros [<-|[Hne Hh]]%lookup_insert_is_Some.
    + eexists i, _. split; [apply lookup_insert_eq | reflexivity].
    + destruct (Hw h Hh) as (id' & e' & He' & Ht').
      exists id', e'. split; [|exact Ht'].
      rewrite lookup_insert_ne; [exact He'|]. intros <-.
      rewrite Hfresh in He' by (simpl; left). discriminate.
  - set (w1 := if nonEmpty _ then _ else _).
    assert (owned w1).
    { subst w1. destruct (nonEmpty _); [|exact Hw]. now apply (owned_same w). }
    destruct toolUseId as [id|]; [|assumption].
    destruct (nonEmpty id); [now apply owned_finishTicker | assumption].
Qed.

Lemma blockIds_dispatches id block :
  id ∉ blockIds block → blockDispatches id block = false.
Proof.
  destruct block as [text|[i|] name input|content toolUseId]; simpl;
    try reflexivity.
  intros Hnot. apply String.eqb_neq. intros ->. apply Hnot. left.
Qed.

Lemma owned_blocks content w :
  NoDup (concat (map blockIds content)) →
  (∀ id, id ∈ concat (map blockIds content) → toolRuns w !! id = None) →
  owned w →
  owned (fold_left (fun w b => handleBlock b w) content w)
  ∧ ∀ id, id ∉ concat (map blockIds content) →
          toolRuns w !! id = None →
          toolRuns (fold_left (fun w b => handleBlock b w) content w) !! id
          = None.
Proof.
  revert w. induction content as [|b content IH]; intros w Hnd Hfresh Hw;
    simpl; [auto|].
  simpl in Hnd, Hfresh. apply NoDup_app in Hnd as (Hb & Hdisj & Hrest).
  assert (Hstep : ∀ id, id ∉ blockIds b → toolRuns w !! id = None →
                        toolRuns (handleBlock b w) !! id = None).
  { intros id Hnot Hnone.
    destruct (handleBlock_lookup id b w (blockIds_dispatches _ _ Hnot));
      congruence. }
  destruct (IH (handleBlock b w) Hrest) as [Ho Hk].
  - intros id Hin. apply Hstep.
    + intros Hinb. now apply (Hdisj id).
    + apply Hfresh. apply elem_of_app. now right.
  - apply owned_handleBlock; [|exact Hw].
    intros id Hin. apply Hfresh. apply elem_of_app. now left.
  - split; [exact Ho|]. intros id Hnot Hnone. apply Hk.
    + intros Hin. apply Hnot. apply elem_of_app. now right.
    + apply Hstep; [|exact Hnone].
      intros Hin. apply Hnot. apply elem_of_app. now left.
Qed.

Lemma owned_step i w :
  NoDup (dispatchedIds i) →
  (∀ id, id ∈ dispatchedIds i → toolRuns w !! id = None) →
  owned w →
  owned (worldOf (step i w))
  ∧ ∀ id, id ∉ dispatchedIds i → toolRuns w !! id = None →
          toolRuns (worldOf (step i w)) !! id = None.
Proof.
  intros Hnd Hfresh Hw.
  destruct i as [t [content|event|d c|]|t h]; simpl in *.
  - apply (owned_blocks content (setClock t w)); auto.
  - split.
    + unfold handleStreamEvent.
      destruct (String.prefix _ _); [|exact Hw].
      match goal with
      | |- context [if ?c then optMember ?k ?v else ?x] =>
          destruct (if c then optMember k v else x); try exact Hw
      end.
      set (w1 := if nonEmpty _ then _ else _).
      assert (owned w1).
      { subst w1. destruct (nonEmpty _); [|exact Hw].
        now apply (owned_same w). }
      destruct (prop "tool_use_id" event); try assumption.
      destruct (_ && _); simpl; [now apply owned_finishTicker | assumption].
    + intros id _ Hnone.
      destruct (handleStreamEvent_lookup id event (setClock t w));
        simpl in *; congruence.
  - split; [exact Hw | auto].
  - split; [exact Hw | auto].
  - unfold fire. simpl. destruct (intervals w !! h); simpl; split; auto.
Qed.

Lemma owned_loop inputs w :
  NoDup (concat (map dispatchedIds inputs)) →
  (∀ id, id ∈ concat (map dispatchedIds inputs) → toolRuns w !! id = None) →
  owned w → owned (worldOf (loop inputs w)).
Proof.
  revert w. induction inputs as [|i inputs IH]; intros w Hnd Hfresh Hw;
    simpl; [exact Hw|].
  simpl in Hnd, Hfresh. apply NoDup_app in Hnd as (Hi & Hdisj & Hrest).
  destruct (owned_step i w Hi) as [Ho Hk]; [|exact Hw|].
  { intros id Hin. apply Hfresh. apply elem_of_app. now left. }
  destruct (step i w) as [w1|w1 err]; simpl in *; [|exact Ho].
  apply IH; [exact Hrest| |exact Ho].
  intros id Hin. apply Hk.
  - intros Hini. now apply (Hdisj id).
  - apply Hfresh. apply elem_of_app. now right.
Qed.

Lemma owned_cleanup w : owned w → owned (cleanup w).
Proof.
  unfold cleanup. generalize ((map_to_list (toolRuns w)).*1) as ids.
  intros ids. revert w. induction ids as [|id ids IH]; intros w Hw; simpl;
    [exact Hw|].
  apply IH. now apply owned_finishTicker.
Qed.

(** When no id is dispatched twice, a run that does not throw ends with an
    empty registry, no live interval, and as many calls of [clearInterval]
    as of [setInterval]. *)
Lemma run_without_redispatch inputs w :
  NoDup (concat (map dispatchedIds inputs)) →
  run inputs = Done w →
  toolRuns w = ∅ ∧ intervals w = ∅ ∧ clearCalls w = setCalls w.
Proof.
  intros Hnd Hrun. destruct (run_accounting inputs w Hrun) as [Hempty Hcount].
  assert (Hno : intervals w = ∅).
  { unfold run in Hrun.
    pose proof (owned_loop inputs init Hnd) as Ho.
    destruct (loop inputs init) as [w1|w1 err]; [|discriminate].
    injection Hrun as <-. simpl in *.
    apply map_empty. intros h.
    destruct (intervals (cleanup w1) !! h) as [c|] eqn:Hh; [|reflexivity].
    destruct (owned_cleanup w1) with (h := h) as (id & e & He & _).
    - apply Ho; [intros; apply lookup_empty|].
      intros h' [c' Hc']. simpl in Hc'. now rewrite lookup_empty in Hc'.
    - eauto.
    - rewrite Hempty in He. now rewrite lookup_empty in He. }
  repeat split; try assumption.
  rewrite Hcount, Hno, map_size_empty. lia.
Qed.

(** C1 fails on the code.  The id [t1] is dispatched twice and never
    completed: the second dispatch overwrites the entry without stopping
    the interval of the first, so after the run the registry is empty but
    [setInterval] was called twice and [clearInterval] once, and the
    interval of the first dispatch is still live and goes on printing. *)
Theorem redispatch_leaves_interval_running :
  ∃ w, run redispatch = Done w
       ∧ toolRuns w = ∅
       ∧ setCalls w = 2 ∧ clearCalls w = 1
       ∧ intervals w !! 0
         = Some {| i_label := "researcher"; i_start := 0; i_delay := 5000 |}
       ∧ console (fire 0 (setClock 5000 w))
         = console w ++ [LStillWorking "researcher" 5].
Proof.
  destruct (run redispatch) as [w|w err] eqn:Hrun;
    [|vm_compute in Hrun; discriminate].
  exists w. split; [reflexivity|].
  split; [apply (run_accounting redispatch w Hrun)|].
  vm_compute in Hrun. injection Hrun as <-.
  repeat split.
Qed.

(** C8 fails on the code.  A stream event of type [tool_result] whose
    [output_text_delta.text] is the number 42 makes the loop body throw a
    [TypeError]: the number is assigned to [progress], which has no method
    [trim]; the run ends in the [catch] block. *)
Theorem mistyped_output_text_throws :
  ∃ w, run mistyped = Thrown w "progress.trim is not a function"
       ∧ console w = [LError "progress.trim is not a function"].
Proof. eexists. split; reflexivity. Qed.

(** C4 fails on the code.  No input dispatches the id [ghost], so it is
    not registered; yet a progress event (type [tool_result_delta]) and a
    completion event (type [tool_result]) for [ghost] whose
    [output_text_delta.text] is the number 42 both throw the [TypeError]
    of [progress.trim]: the guard of that field does not look at the id
    or at the registry.  The run ends in the [catch] block with the error
    line as its only line; the registry is as it was. *)
Theorem unknown_id_event_throws :
  Forall (fun i => dispatches "ghost" i = false)
    (unknownEvent "tool_result_delta" ++ unknownEvent "tool_result")
  ∧ toolRuns init !! "ghost" = None
  ∧ (∃ w, run (unknownEvent "tool_result_delta")
          = Thrown w "progress.trim is not a function"
          ∧ console w = [LError "progress.trim is not a function"]
          ∧ toolRuns w = toolRuns init)
  ∧ (∃ w, run (unknownEvent "tool_result")
          = Thrown w "progress.trim is not a function"
          ∧ console w = [LError "progress.trim is not a function"]
          ∧ toolRuns w = toolRuns init).
Proof.
  split; [repeat constructor|]. split; [reflexivity|].
  split; eexists; repeat split; reflexivity.
Qed.

(** C5 fails on the code.  The task [t1] is dispatched and completed by
    its result block, which prints the returned line and removes the
    entry.  A second completion for [t1], by a stream event of type
    [tool_result] whose [output_text_delta.text] is the number 42, then
    throws the [TypeError] of [progress.trim]: the run ends in the [catch]
    block.  The registry is not changed by it and no second returned line
    is printed. *)
Theorem second_completion_throws :
  ∃ w1 w,
    loop (take 2 completedTwice) init = Done w1
    ∧ toolRuns w1 !! "t1" = None
    ∧ run completedTwice = Thrown w "progress.trim is not a function"
    ∧ toolRuns w = toolRuns w1
    ∧ console w
      = [ LDelegating "coder" " — build it";
          LResult "coder" "build finished";
          LReturned "coder" 7;
          LError "progress.trim is not a function" ].
Proof. do 2 eexists. repeat split; vm_compute; reflexivity. Qed.

(** In the model, when every [output_text_delta.text] has its declared
    type, the loop does not throw. *)
Lemma typed_inputs_never_throw inputs w :
  Forall (fun i => inputTyped i = true) inputs →
  ∃ w', loop inputs w = Done w'.
Proof.
  intros H. revert w. induction H as [|i inputs Hi _ IH]; intros w; simpl;
    [eauto|].
  assert (∃ w1, step i w = Done w1) as [w1 ->].
  { destruct i as [t m|t h]; [now apply step_typed | simpl; eauto]. }
  apply IH.
Qed.

End RunEnd.

(** * Further properties of the tracker *)

(** ** Exceptions of the loop *)

Section Exceptions.

Implicit Types (w : World) (event : list (string * JsVal)).

(** A stream event that does not throw, handled step by step. *)
Lemma handleStreamEvent_done event w :
  eventThrows event = false →
  handleStreamEvent event w
  = match prop "type" event with
    | JStr ty =>
        if String.prefix "tool_result" ty then
          let toolUseId := match prop "tool_use_id" event with
                           | JStr s => Some s
                           | _ => None
                           end in
          let lbl := labelOf toolUseId w in
          let p := trim (progressText event) in
          let w1 := if nonEmpty p then log (LUpdate lbl p) w else w in
          match toolUseId with
          | Some id =>
              if nonEmpty id && String.eqb ty "tool_result"
              then Done (finishTicker id (Some lbl) w1)
              else Done w1
          | None => Done w1
          end
        else Done w
    | _ => Done w
    end.
Proof.
  unfold eventThrows, handleStreamEvent, progressText.
  destruct (prop "type" event) as [| | | |ty| |]; try reflexivity.
  destruct (String.prefix "tool_result" ty); [|reflexivity].
  cbv beta iota zeta. rewrite andb_true_l.
  destruct (deltaProgress (prop "delta" event)) as [|a r]; [|reflexivity].
  change (nonEmpty "") with false. cbv beta iota. rewrite !andb_true_l.
  destruct (optMember "text" (prop "output_text_delta" event))
    as [| |b|n|s|items|fields]; simpl; intros Ht;
    try rewrite Ht; try discriminate;
    try (destruct s); reflexivity.
Qed.

Lemma handleStreamEvent_throws event w :
  eventThrows event = true →
  handleStreamEvent event w = Thrown w "progress.trim is not a function".
Proof.
  unfold eventThrows, handleStreamEvent.
  destruct (prop "type" event) as [| | | |ty| |]; try discriminate.
  intros [[-> Hp%negb_true_iff]%andb_prop Ht]%andb_prop.
  cbv beta iota zeta. rewrite Hp. rewrite andb_true_l.
  destruct (optMember "text" (prop "output_text_delta" event));
    try discriminate; simpl in *; now rewrite ?Ht.
Qed.

Lemma handleStreamEvent_completes event w :
  eventThrows event = false → ∃ w', handleStreamEvent event w = Done w'.
Proof.
  intros Ht. rewrite handleStreamEvent_done by exact Ht.
  destruct (prop "type" event); eauto.
  destruct (String.prefix _ _); eauto.
  cbv zeta. destruct (prop "tool_use_id" event); eauto.
  destruct (_ && _); eauto.
Qed.

(** X1. A stream event whose type starts with [tool_result], whose delta
    gives no text and whose [output_text_delta.text] is truthy and not a
    string throws the [TypeError] of [progress.trim], whatever the
    registry holds and whatever id the event carries, before anything is
    printed or changed.  A stream event whose type is not a string that
    starts with [tool_result] is ignored: it changes nothing and does not
    throw. *)
Theorem stream_event_throws_when
    (event : list (string * JsVal)) (w : World) :
  (eventThrows event = true →
   handleStreamEvent event w = Thrown w "progress.trim is not a function")
  ∧ (∀ ty, prop "type" event = JStr ty →
           String.prefix "tool_result" ty = false →
           handleStreamEvent event w = Done w)
  ∧ ((∀ ty, prop "type" event ≠ JStr ty) →
     handleStreamEvent event w = Done w).
Proof.
  split; [apply handleStreamEvent_throws|]. split.
  - intros ty Hty Hp. unfold handleStreamEvent. now rewrite Hty, Hp.
  - intros Hty. unfold handleStreamEvent.
    destruct (prop "type" event) as [| | | |ty| |]; try reflexivity.
    now destruct (Hty ty).
Qed.

Lemma stream_event_throws_when_witness :
  handleStreamEvent
    [("type", JStr "tool_result_delta"); ("tool_use_id", JStr "t1");
     ("delta", JObj [("text", JStr "")]);
     ("output_text_delta", JObj [("text", JArr [])])]
    (worldOf (loop scenario init))
  = Thrown (worldOf (loop scenario init)) "progress.trim is not a function"
  ∧ handleStreamEvent
      [("type", JStr "content_block_delta");
       ("output_text_delta", JObj [("text", JNum 42)])] init
    = Done init
  ∧ handleStreamEvent
      [("type", JNum 7); ("output_text_delta", JObj [("text", JNum 42)])]
      init
    = Done init.
Proof.
  split; [|split].
  - apply (stream_event_throws_when
             [("type", JStr "tool_result_delta"); ("tool_use_id", JStr "t1");
              ("delta", JObj [("text", JStr "")]);
              ("output_text_delta", JObj [("text", JArr [])])]).
    reflexivity.
  - apply (stream_event_throws_when
             [("type", JStr "content_block_delta");
              ("output_text_delta", JObj [("text", JNum 42)])] init)
      with (ty := "content_block_delta"); reflexivity.
  - apply (stream_event_throws_when
             [("type", JNum 7);
              ("output_text_delta", JObj [("text", JNum 42)])] init).
    intros ty. discriminate.
Defined.

Lemma step_throws i w :
  inputThrows i = true →
  step i w = Thrown (setClock (inputTime i) w)
               "progress.trim is not a function".
Proof.
  destruct i as [t [content|event|d c|]|t h]; simpl; try discriminate.
  apply handleStreamEvent_throws.
Qed.

Lemma step_done i w :
  inputThrows i = false → ∃ w', step i w = Done w'.
Proof.
  destruct i as [t [content|event|d c|]|t h]; simpl; eauto.
  apply handleStreamEvent_completes.
Qed.


Lemma loop_done inputs w :
  existsb inputThrows inputs = false → ∃ w', loop inputs w = Done w'.
Proof.
  revert w. induction inputs as [|i inputs IH]; intros w; simpl; [eauto|].
  intros [Hi Hrest]%orb_false_elim.
  destruct (step_done i w Hi) as [w1 ->]. simpl. now apply IH.
Qed.

End Exceptions.

(** ** Progress events *)

Section Progress.

Implicit Types (w : World) (event : list (string * JsVal)).

(** X2. A stream event whose type is not exactly [tool_result] (a progress
    delta, or any other event) never changes the registry or the timers,
    whether its id is registered or not and whether it throws or not: at
    most it prints one update line, under the label of its id, whose text
    is not empty and has no white space at either end. *)
Theorem progress_event_keeps_registry
    (event : list (string * JsVal)) (w : World) :
  prop "type" event ≠ JStr "tool_result" →
  let w' := worldOf (handleStreamEvent event w) in
  toolRuns w' = toolRuns w ∧ intervals w' = intervals w
  ∧ nextHandle w' = nextHandle w
  ∧ setCalls w' = setCalls w ∧ clearCalls w' = clearCalls w
  ∧ (console w' = console w
     ∨ ∃ p, console w' = console w ++ [LUpdate (labelOf (eventId event) w) p]
            ∧ clean p = true).
Proof.
  intros Hty. destruct (eventThrows event) eqn:Ht.
  - rewrite handleStreamEvent_throws by exact Ht. simpl. auto 10.
  - rewrite handleStreamEvent_done by exact Ht. unfold eventId.
    destruct (prop "type" event) as [| | | |ty| |]; simpl; auto 10.
    destruct (String.prefix "tool_result" ty); simpl; auto 10.
    assert (Hne : String.eqb ty "tool_result" = false).
    { apply String.eqb_neq. congruence. }
    cbv zeta.
    assert (Hw1 : ∀ lbl,
               let w1 := if nonEmpty (trim (progressText event))
                         then log (LUpdate lbl (trim (progressText event))) w
                         else w in
               toolRuns w1 = toolRuns w ∧ intervals w1 = intervals w
               ∧ nextHandle w1 = nextHandle w
               ∧ setCalls w1 = setCalls w ∧ clearCalls w1 = clearCalls w
               ∧ (console w1 = console w
                  ∨ ∃ p, console w1 = console w ++ [LUpdate lbl p]
                         ∧ clean p = true)).
    { intros lbl.
      destruct (nonEmpty (trim (progressText event))) eqn:Hp; simpl; auto 10.
      repeat (split; [reflexivity|]). right. eexists.
      split; [reflexivity|]. now apply clean_trim. }
    destruct (prop "tool_use_id" event) as [| | | |i| |]; simpl;
      rewrite ?Hne, ?andb_false_r; simpl; apply Hw1.
Qed.

Lemma progress_event_keeps_registry_witness :
  toolRuns (worldOf (handleStreamEvent
                       [("type", JStr "tool_result_delta");
                        ("tool_use_id", JStr "t1");
                        ("delta", JObj [("text", JStr " 50% done ")])]
                       (worldOf (loop [IMessage 0
                                         (MAssistant
                                            [taskBlock "t1" "coder" "go"])]
                                      init))))
  = toolRuns (worldOf (loop [IMessage 0
                               (MAssistant [taskBlock "t1" "coder" "go"])]
                            init)).
Proof.
  apply (progress_event_keeps_registry
           [("type", JStr "tool_result_delta"); ("tool_use_id", JStr "t1");
            ("delta", JObj [("text", JStr " 50% done ")])]).
  discriminate.
Defined.

(** X3. For a stream event of a [tool_result] type that does not throw,
    the update line carries the trimmed text of the event, and none is
    printed when that text is blank.  In the text of the event [delta.text]
    comes first: when the delta is truthy and its [text] is a string [s],
    [delta.output] and [delta.content] are never read, a non-empty [s] is
    the text and keeps a mistyped [output_text_delta] from throwing, and an
    empty [s] leaves only [output_text_delta.text]. *)
Theorem progress_text_precedence
    (event : list (string * JsVal)) (w : World) (ty s : string) :
  prop "type" event = JStr ty → String.prefix "tool_result" ty = true →
  truthy (prop "delta" event) = true →
  member "text" (prop "delta" event) = JStr s →
  progressText event
  = (if nonEmpty s then s
     else match optMember "text" (prop "output_text_delta" event) with
          | JStr o => o
          | _ => ""
          end)
  ∧ (nonEmpty s = true → eventThrows event = false)
  ∧ (eventThrows event = false →
     ∃ rest,
       console (worldOf (handleStreamEvent event w))
       = console w
         ++ (if nonEmpty (trim (progressText event))
             then [LUpdate (labelOf (eventId event) w)
                     (trim (progressText event))]
             else [])
         ++ rest
       ∧ Forall (fun l => isReturned l = true) rest).
Proof.
  intros Hty Hpre Hd Ht.
  assert (Hdp : deltaProgress (prop "delta" event) = s).
  { unfold deltaProgress. now rewrite Hd, Ht. }
  split; [|split].
  - unfold progressText. now rewrite Hdp.
  - intros Hs. unfold eventThrows. now rewrite Hty, Hpre, Hdp, Hs.
  - intros Hno. rewrite handleStreamEvent_done by exact Hno.
    rewrite Hty, Hpre. cbv zeta. unfold eventId.
    set (lbl := labelOf _ w).
    set (w1 := if nonEmpty (trim (progressText event)) then _ else w).
    assert (H1 : console w1
                 = console w
                   ++ (if nonEmpty (trim (progressText event))
                       then [LUpdate lbl (trim (progressText event))]
                       else [])).
    { subst w1. destruct (nonEmpty _); simpl; now rewrite ?app_nil_r. }
    destruct (prop "tool_use_id" event) as [| | | |i| |];
      try (exists []; simpl; now rewrite H1, app_nil_r).
    destruct (_ && _); simpl; [|exists []; now rewrite H1, app_nil_r].
    rewrite finishTicker_console, H1, <- app_assoc. eexists. split;
      [reflexivity|].
    destruct (toolRuns w1 !! i); [|constructor].
    destruct (nonEmpty lbl); repeat constructor.
Qed.

Lemma progress_text_precedence_witness :
  progressText [("type", JStr "tool_result_delta");
                ("delta", JObj [("text", JStr ""); ("output", JStr "hidden")]);
                ("output_text_delta", JObj [("text", JStr "shown")])]
  = "shown".
Proof.
  apply (progress_text_precedence
           [("type", JStr "tool_result_delta");
            ("delta", JObj [("text", JStr ""); ("output", JStr "hidden")]);
            ("output_text_delta", JObj [("text", JStr "shown")])]
           init "tool_result_delta" "");
    reflexivity.
Defined.

End Progress.

(** ** How a run ends *)

Section RunOutcome.

Implicit Types (w : World).

Lemma handleBlock_emits block w :
  ∃ new, console (handleBlock block w) = console w ++ new
         ∧ Forall (fun l => regular l = true) new.
Proof.
  destruct block as [text|o name input|content toolUseId]; simpl.
  - eexists. split; [reflexivity | repeat constructor].
  - assert (Hu : ∃ new, console (usingTool o name w) = console w ++ new
                        ∧ Forall (fun l => regular l = true) new).
    { exists [LUsingTool name]. split; [|repeat constructor].
      unfold usingTool. simpl.
      destruct o as [i|]; [destruct (nonEmpty i)|]; reflexivity. }
    destruct input as [inp|], o as [i|]; try exact Hu.
    destruct (subagent_type inp) as [sub|]; [|exact Hu].
    destruct (nonEmpty sub && nonEmpty i); [|exact Hu].
    rewrite delegate_world. simpl. eexists.
    split; [reflexivity | repeat constructor].
  - set (summary := extractText _).
    set (w1 := if nonEmpty summary then _ else w).
    assert (H1 : console w1
                 = console w
                   ++ (if nonEmpty summary
                       then [LResult (labelOf toolUseId w) summary]
                       else [])).
    { subst w1. destruct (nonEmpty summary); simpl; now rewrite ?app_nil_r. }
    assert (Hf : Forall (fun l => regular l = true)
                   (if nonEmpty summary
                    then [LResult (labelOf toolUseId w) summary] else [])).
    { destruct (nonEmpty summary) eqn:Hs; repeat constructor.
      subst summary. destruct (extractText_is_trimmed
                                 (nullish content (JStr ""))) as [raw Hraw].
      rewrite Hraw in *. unfold regular. simpl. now apply clean_trim. }
    destruct toolUseId as [id|]; [|eauto].
    destruct (nonEmpty id); [|eauto].
    rewrite finishTicker_console, H1, <- app_assoc. eexists.
    split; [reflexivity|]. apply Forall_app. split; [exact Hf|].
    destruct (toolRuns w1 !! id) as [e|]; simpl; [|constructor].
    destruct (nonEmpty (label e)); repeat constructor.
Qed.

Lemma step_emits i w :
  ∃ new, console (worldOf (step i w)) = console w ++ new
         ∧ Forall (fun l => regular l = true) new.
Proof.
  destruct i as [t [content|event|d c|]|t h]; simpl.
  - change (console w) with (console (setClock t w)).
    generalize (setClock t w) as w0. clear w.
    induction content as [|b content IH]; intros w0; simpl.
    + exists []. now rewrite app_nil_r.
    + destruct (handleBlock_emits b w0) as (n1 & H1 & F1).
      destruct (IH (handleBlock b w0)) as (n2 & H2 & F2).
      exists (n1 ++ n2). rewrite H2, H1, <- app_assoc.
      split; [reflexivity | now apply Forall_app].
  - destruct (eventThrows event) eqn:Ht.
    + rewrite handleStreamEvent_throws by exact Ht. exists [].
      simpl. now rewrite app_nil_r.
    + rewrite handleStreamEvent_done by exact Ht.
      destruct (prop "type" event) as [| | | |ty| |];
        try (exists []; simpl; now rewrite app_nil_r).
      destruct (String.prefix "tool_result" ty);
        [|exists []; simpl; now rewrite app_nil_r].
      cbv zeta. set (lbl := labelOf _ _).
      set (p := trim (progressText event)).
      set (w1 := if nonEmpty p then _ else _).
      assert (H1 : console w1
                   = console w
                     ++ (if nonEmpty p then [LUpdate lbl p] else [])).
      { subst w1. destruct (nonEmpty p); simpl; now rewrite ?app_nil_r. }
      assert (Hf : Forall (fun l => regular l = true)
                     (if nonEmpty p then [LUpdate lbl p] else [])).
      { destruct (nonEmpty p) eqn:Hp; repeat constructor.
        unfold regular. simpl. now apply clean_trim. }
      destruct (prop "tool_use_id" event) as [| | | |i| |]; simpl; eauto.
      destruct (_ && _); simpl; [|eauto].
      rewrite finishTicker_console, H1, <- app_assoc. eexists.
      split; [reflexivity|]. apply Forall_app. split; [exact Hf|].
      destruct (toolRuns w1 !! i); [|constructor].
      destruct (nonEmpty lbl); repeat constructor.
  - eexists. rewrite <- app_assoc. split; [reflexivity | repeat constructor].
  - exists []. now rewrite app_nil_r.
  - unfold fire. simpl. destruct (intervals w !! h); simpl.
    + eexists. split; [reflexivity | repeat constructor].
    + exists []. now rewrite app_nil_r.
Qed.

Lemma loop_emits inputs w :
  ∃ new, console (worldOf (loop inputs w)) = console w ++ new
         ∧ Forall (fun l => regular l = true) new.
Proof.
  revert w. induction inputs as [|i inputs IH]; intros w; simpl.
  - exists []. now rewrite app_nil_r.
  - destruct (step_emits i w) as (n1 & H1 & F1).
    destruct (step i w) as [w1|w1 err]; simpl in *; [|eauto].
    destruct (IH w1) as (n2 & H2 & F2).
    exists (n1 ++ n2). rewrite H2, H1, <- app_assoc.
    split; [reflexivity | now apply Forall_app].
Qed.

Lemma cleanup_console w : console (cleanup w) = console w.
Proof.
  unfold cleanup. generalize ((map_to_list (toolRuns w)).*1) as ids.
  intros ids. revert w. induction ids as [|id ids IH]; intros w; simpl;
    [reflexivity|].
  rewrite IH, finishTicker_console.
  destruct (toolRuns w !! id); now rewrite app_nil_r.
Qed.

Lemma loop_throws inputs w :
  existsb inputThrows inputs = true →
  ∃ w', loop inputs w = Thrown w' "progress.trim is not a function".
Proof.
  revert w. induction inputs as [|i inputs IH]; intros w; simpl;
    [discriminate|].
  destruct (inputThrows i) eqn:Hi.
  - intros _. rewrite (step_throws i w Hi). simpl. eauto.
  - simpl. intros Hrest. destruct (step_done i w Hi) as [w1 ->]. simpl.
    now apply IH.
Qed.

(** The two ways a run ends. *)
Lemma run_ends (inputs : list Input) :
  match run inputs with
  | Done w =>
      existsb inputThrows inputs = false
      ∧ toolRuns w = ∅
      ∧ ∃ body, console w = body ++ [LFinished]
                ∧ Forall (fun l => isEnd l = false) body
  | Thrown w message =>
      existsb inputThrows inputs = true
      ∧ message = "progress.trim is not a function"
      ∧ ∃ body, console w = body ++ [LError message]
                ∧ Forall (fun l => isEnd l = false) body
  end.
Proof.
  unfold run. destruct (loop_emits inputs init) as (new & Hnew & Freg).
  simpl in Hnew.
  assert (Fnew : Forall (fun l => isEnd l = false) new).
  { eapply Forall_impl; [exact Freg|]. intros l Hl. simpl in Hl.
    unfold regular in Hl. apply andb_prop in Hl as [Hl _].
    now apply negb_true_iff in Hl. }
  destruct (existsb inputThrows inputs) eqn:Ht.
  - destruct (loop_throws inputs init Ht) as [w' Hw']. rewrite Hw' in *.
    simpl in *. repeat split. exists new. now rewrite Hnew.
  - destruct (loop_done inputs init Ht) as [w' Hw']. rewrite Hw' in *.
    simpl in *. split; [reflexivity|]. split; [apply cleanup_empties|].
    exists new. now rewrite cleanup_console, Hnew.
Qed.

(** X8. How a run ends, for [tool_use] inputs of the declared types
    and payloads that [String] converts.  When a run completes, the
    registry is empty and the closing line is the last line printed so
    far; when a run ends in the [catch] block, the error line, with the
    message of the exception, is the last line printed.  Either way no
    closing line and no error line appears before that line. *)
Theorem run_outcome (inputs : list Input) :
  forallb inputPlain inputs = true →
  match run inputs with
  | Done w =>
      toolRuns w = ∅
      ∧ ∃ body, console w = body ++ [LFinished]
                ∧ Forall (fun l => isEnd l = false) body
  | Thrown w message =>
      ∃ body, console w = body ++ [LError message]
              ∧ Forall (fun l => isEnd l = false) body
  end.
Proof.
  intros _. pose proof (run_ends inputs) as H.
  destruct (run inputs) as [w|w message].
  - now destruct H as (_ & Hruns & Hbody).
  - now destruct H as (_ & _ & Hbody).
Qed.

Lemma run_outcome_witness :
  match run scenario with
  | Done w =>
      toolRuns w = ∅
      ∧ ∃ body, console w = body ++ [LFinished]
                ∧ Forall (fun l => isEnd l = false) body
  | Thrown w message =>
      ∃ body, console w = body ++ [LError message]
              ∧ Forall (fun l => isEnd l = false) body
  end
  ∧ match run completedTwice with
    | Done w =>
        toolRuns w = ∅
        ∧ ∃ body, console w = body ++ [LFinished]
                  ∧ Forall (fun l => isEnd l = false) body
    | Thrown w message =>
        ∃ body, console w = body ++ [LError message]
                ∧ Forall (fun l => isEnd l = false) body
    end.
Proof.
  split.
  - apply (run_outcome scenario). reflexivity.
  - apply (run_outcome completedTwice). reflexivity.
Defined.



End RunOutcome.

(** ** Blocks without an id, and the context of a delegation *)

Section Blocks.

Implicit Types (w : World).



Lemma substring_whole (n : nat) (s : string) :
  String.length s ≤ n → String.substring 0 n s = s.
Proof.
  revert n. induction s as [|a s IH]; intros [|n]; simpl; try reflexivity;
    try lia.
  intros H. rewrite IH by lia. reflexivity.
Qed.

Lemma substring_length (n : nat) (s : string) :
  n ≤ String.length s → String.length (String.substring 0 n s) = n.
Proof.
  revert n. induction s as [|a s IH]; intros [|n]; simpl; try reflexivity;
    try lia.
  intros H. rewrite IH by lia. reflexivity.
Qed.

(** X5. The context shown on the line of a delegation is the description
    or, only when there is no description, the prompt.  An empty context
    adds nothing to the line; a context of at most 90 characters is shown
    whole after a dash; a longer one is cut to its first 90 characters,
    followed by an ellipsis. *)
Theorem context_suffix_truncation (inp : TaskInput) (c : string) :
  contextOf (Some inp) = Some c →
  (∀ d, description inp = Some d → c = d)
  ∧ (description inp = None → prompt inp = Some c)
  ∧ (nonEmpty c = false → contextSuffix inp = "")
  ∧ (nonEmpty c = true → String.length c ≤ 90 →
     contextSuffix inp = " — " +:+ c)
  ∧ (90 < String.length c →
     contextSuffix inp = " — " +:+ String.substring 0 90 c +:+ "…"
     ∧ String.length (String.substring 0 90 c) = 90).
Proof.
  unfold contextOf, contextSuffix. intros Hc.
  split; [|split; [|split; [|split]]].
  - intros d Hd. rewrite Hd in Hc. congruence.
  - intros Hd. now rewrite Hd in Hc.
  - rewrite Hc. now intros ->.
  - rewrite Hc. intros -> Hlen. rewrite substring_whole by exact Hlen.
    apply Nat.ltb_ge in Hlen. rewrite Hlen. now rewrite append_nil_r.
  - rewrite Hc. intros Hlen.
    assert (nonEmpty c = true) as -> by (destruct c; simpl in *; [lia|easy]).
    split; [|apply substring_length; lia].
    apply Nat.ltb_lt in Hlen. now rewrite Hlen.
Qed.

Lemma context_suffix_truncation_witness :
  contextSuffix {| subagent_type := Some "coder"; description := Some "";
                   prompt := Some "a prompt that is not shown" |}
  = "".
Proof.
  apply (context_suffix_truncation
           {| subagent_type := Some "coder"; description := Some "";
              prompt := Some "a prompt that is not shown" |} "");
    reflexivity.
Defined.

End Blocks.

(** ** Invariants of the worlds the loop reaches *)

Section Reachable.

Implicit Types (w : World).

(** X6. In every world the loop reaches, also one it throws in: the ticker
    of a registered entry is a live interval of period 5000 whose callback
    holds the label and the start of that entry; no two entries share a
    ticker; no entry is registered under the empty id; every live interval
    has a handle below the next one to be allocated; and [setInterval] was
    called as often as [clearInterval] plus once for each interval still
    live, so no interval was ever cleared twice. *)
Theorem reachable_worlds_coherent (inputs : list Input) :
  let w := worldOf (loop inputs init) in
  (∀ id e h, toolRuns w !! id = Some e → ticker e = Some h →
             intervals w !! h
             = Some {| i_label := label e; i_start := start e;
                       i_delay := 5000 |})
  ∧ (∀ id1 id2 e1 e2 h,
       toolRuns w !! id1 = Some e1 → toolRuns w !! id2 = Some e2 →
       ticker e1 = Some h → ticker e2 = Some h → id1 = id2)
  ∧ (∀ id e, toolRuns w !! id = Some e → nonEmpty id = true)
  ∧ (∀ h, is_Some (intervals w !! h) → h < nextHandle w)
  ∧ setCalls w = clearCalls w + size (intervals w).
Proof.
  intros w. destruct (coherent_loop inputs init coherent_init)
    as [H0 H1 H2 H3 H4 H5].
  repeat split; assumption.
Qed.

Lemma reachable_worlds_coherent_witness :
  intervals (worldOf (loop redispatch init)) !! 1
  = Some {| i_label := "coder"; i_start := 10; i_delay := 5000 |}.
Proof.
  destruct (reachable_worlds_coherent redispatch) as (H & _).
  apply (H "t1" {| label := "coder"; start := 10; ticker := Some 1 |} 1);
    vm_compute; reflexivity.
Defined.

(** X7. When no id is dispatched twice, a run that completes leaks
    nothing: the registry is empty, no interval is live, and
    [clearInterval] was called as often as [setInterval]. *)
Theorem no_leak_without_redispatch (inputs : list Input) (w : World) :
  NoDup (concat (map dispatchedIds inputs)) →
  run inputs = Done w →
  toolRuns w = ∅ ∧ intervals w = ∅ ∧ clearCalls w = setCalls w.
Proof. apply run_without_redispatch. Qed.

Lemma no_leak_without_redispatch_witness :
  clearCalls (worldOf (run scenario)) = setCalls (worldOf (run scenario)).
Proof.
  apply (no_leak_without_redispatch scenario (worldOf (run scenario))).
  - vm_compute. apply NoDup_singleton.
  - vm_compute. reflexivity.
Defined.

End Reachable.

(** ** Clean text *)

Section CleanText.

Implicit Types (w : World).

(** X10. Normalised text is in normal form: [extractText] never returns a
    text that starts or ends with white space, trimming its result changes
    nothing, and normalising its result again gives the same text. *)
Theorem extractText_normal_form (content : JsVal) :
  startsBlank (extractText content) = false
  ∧ endsBlank (extractText content) = false
  ∧ trim (extractText content) = extractText content
  ∧ extractText (JStr (extractText content)) = extractText content.
Proof.
  destruct (extractText_is_trimmed content) as [raw ->].
  destruct (trim_edges raw) as [Hs He].
  repeat split; try assumption; simpl; apply trim_idempotent.
Qed.

(** X11. Every result line and every update line a run prints, whatever
    the inputs and however the run ends, carries a text that is not empty
    and has no white space at either end. *)
Theorem text_lines_clean (inputs : list Input) :
  Forall (fun l => textLineClean l = true) (console (worldOf (run inputs))).
Proof.
  assert (Hloop : Forall (fun l => textLineClean l = true)
                    (console (worldOf (loop inputs init)))).
  { destruct (loop_emits inputs init) as (new & -> & Freg). simpl.
    eapply Forall_impl; [exact Freg|]. intros l Hl. simpl in Hl.
    unfold regular in Hl. now apply andb_prop in Hl as [_ Hl]. }
  unfold run. destruct (loop inputs init) as [w|w err]; simpl in *.
  - rewrite cleanup_console. apply Forall_app. split; [exact Hloop|].
    repeat constructor.
  - apply Forall_app. split; [exact Hloop | repeat constructor].
Qed.

End CleanText.

(** ** The cleanup at the end of the run *)

Section Cleanup.

Implicit Types (w : World) (id : string) (e : Entry).

Lemma finishTicker_intervals_gone id lbl w (h : nat) :
  intervals w !! h = None → intervals (finishTicker id lbl w) !! h = None.
Proof.
  intros Hh. destruct (toolRuns w !! id) as [e|] eqn:He;
    [|now rewrite finishTicker_unknown].
  rewrite (finishTicker_known _ _ _ _ He). simpl.
  destruct (ticker e); [|exact Hh]. apply lookup_delete_None. now right.
Qed.

Lemma cleanup_fold_gone (ids : list string) w (h : nat) :
  intervals w !! h = None →
  intervals (fold_left (fun w id => finishTicker id None w) ids w) !! h
  = None.
Proof.
  revert w. induction ids as [|id ids IH]; intros w Hh; simpl; [exact Hh|].
  now apply IH, finishTicker_intervals_gone.
Qed.

Lemma cleanup_fold_clears (ids : list string) w id e (h : nat) :
  coherent w → id ∈ ids →
  toolRuns w !! id = Some e → ticker e = Some h →
  intervals (fold_left (fun w id => finishTicker id None w) ids w) !! h
  = None.
Proof.
  revert w. induction ids as [|id0 ids IH]; intros w Hcoh Hin He Ht;
    [now apply elem_of_nil in Hin|].
  simpl. destruct (decide (id0 = id)) as [->|Hne].
  - apply cleanup_fold_gone. rewrite (finishTicker_known _ _ _ _ He).
    simpl. rewrite Ht. apply lookup_delete_eq.
  - apply elem_of_cons in Hin as [Heq|Hin]; [congruence|].
    apply (IH (finishTicker id0 None w)); try assumption.
    + now apply coherent_finishTicker.
    + rewrite finishTicker_runs. now rewrite lookup_delete_ne.
Qed.

Lemma cleanup_fold_keeps (ids : list string) w (h : nat) :
  (∀ id e, toolRuns w !! id = Some e → ticker e ≠ Some h) →
  intervals (fold_left (fun w id => finishTicker id None w) ids w) !! h
  = intervals w !! h.
Proof.
  revert w. induction ids as [|id0 ids IH]; intros w Hfree; simpl;
    [reflexivity|].
  rewrite IH.
  - destruct (toolRuns w !! id0) as [e|] eqn:He;
      [|now rewrite finishTicker_unknown].
    rewrite (finishTicker_known _ _ _ _ He). simpl.
    destruct (ticker e) as [h0|] eqn:Hte; [|reflexivity].
    apply lookup_delete_ne. intros ->. now apply (Hfree id0 e).
  - intros id e. rewrite finishTicker_runs.
    intros [_ He]%lookup_delete_Some. eauto.
Qed.

Lemma cleanup_fold_calls (ids : list string) w :
  setCalls (fold_left (fun w id => finishTicker id None w) ids w)
  = setCalls w
  ∧ nextHandle (fold_left (fun w id => finishTicker id None w) ids w)
    = nextHandle w.
Proof.
  revert w. induction ids as [|id0 ids IH]; intros w; simpl; [auto|].
  destruct (IH (finishTicker id0 None w)) as [-> ->].
  destruct (toolRuns w !! id0) as [e|] eqn:He;
    [|now rewrite finishTicker_unknown].
  now rewrite (finishTicker_known _ _ _ _ He).
Qed.

(** X12. The cleanup loop at the end of a run is silent and complete: in
    a world the loop reached, it prints nothing, empties the registry,
    clears the ticker of every entry that was still registered, starts no
    interval, and leaves alone every interval that is not the ticker of a
    registered entry. *)
Theorem cleanup_silent_and_complete (inputs : list Input) (w : World) :
  loop inputs init = Done w →
  console (cleanup w) = console w
  ∧ toolRuns (cleanup w) = ∅
  ∧ setCalls (cleanup w) = setCalls w
  ∧ (∀ id e h, toolRuns w !! id = Some e → ticker e = Some h →
               intervals (cleanup w) !! h = None)
  ∧ (∀ h, (∀ id e, toolRuns w !! id = Some e → ticker e ≠ Some h) →
          intervals (cleanup w) !! h = intervals w !! h).
Proof.
  intros Hloop.
  pose proof (coherent_loop inputs init coherent_init) as Hcoh.
  rewrite Hloop in Hcoh. simpl in Hcoh.
  split; [apply cleanup_console|]. split; [apply cleanup_empties|].
  split; [apply cleanup_fold_calls|]. split.
  - intros id e h He Ht. unfold cleanup.
    apply (cleanup_fold_clears _ w id e h); try assumption.
    apply list_elem_of_fmap. exists (id, e). split; [reflexivity|].
    now apply elem_of_map_to_list.
  - intros h Hfree. now apply cleanup_fold_keeps.
Qed.

Lemma cleanup_silent_and_complete_witness :
  console (cleanup (worldOf (loop redispatch init)))
  = console (worldOf (loop redispatch init)).
Proof.
  apply (cleanup_silent_and_complete redispatch
           (worldOf (loop redispatch init))).
  vm_compute. reflexivity.
Defined.

End Cleanup.

(** ** The prologue *)

Section Prologue.

(** X13. [validateEnv] is called before the [try] block.  When the API key
    is unset or empty the promise of [run] is rejected with the error of
    [validateEnv] after the three lines of the header, whatever the stream
    holds: no message is read, and the [catch] block with its error line
    and [process.exit] is not reached.  With a key the promise is never
    rejected: the header and the section line are printed first, and the
    run resolves or exits with code 1. *)
Theorem prologue_outcome (apiKey : option string) (inputs : list Input) :
  length (printHeader "Example 08: Multi-Agent Orchestration") = 3
  ∧ (absent apiKey = true →
     ∃ error,
       validateEnv apiKey = Some error
       ∧ runWithPrologue apiKey inputs
         = Rejected (printHeader "Example 08: Multi-Agent Orchestration")
             error)
  ∧ (absent apiKey = false →
     validateEnv apiKey = None
     ∧ (∃ rest,
          printedBy (runWithPrologue apiKey inputs)
          = printHeader "Example 08: Multi-Agent Orchestration"
            ++ printSection
                 "Coordinated delegation across specialized subagents"
            ++ rest)
     ∧ match runWithPrologue apiKey inputs with
       | Resolved _ => True
       | Exited code _ => code = 1%Z
       | Rejected _ _ => False
       end).
Proof.
  split; [reflexivity|]. unfold runWithPrologue.
  destruct apiKey as [[|a k]|]; simpl validateEnv; cbv iota; split;
    try discriminate; try (intros _; eexists; split; reflexivity).
  intros _. split; [reflexivity|].
  destruct (run inputs) as [w|w err];
    cbv beta iota zeta delta [printedBy];
    (split; [|reflexivity]); eexists; symmetry; apply app_assoc.
Qed.

Lemma prologue_outcome_witness :
  (∃ error,
     runWithPrologue (Some "") scenario
     = Rejected (printHeader "Example 08: Multi-Agent Orchestration") error)
  ∧ (∃ rest,
       printedBy (runWithPrologue (Some "sk-key") completedTwice)
       = printHeader "Example 08: Multi-Agent Orchestration"
         ++ printSection
              "Coordinated delegation across specialized subagents"
         ++ rest).
Proof.
  destruct (prologue_outcome (Some "") scenario) as (_ & Hno & _).
  destruct (prologue_outcome (Some "sk-key") completedTwice)
    as (_ & _ & Hkey).
  destruct (Hno ltac:(reflexivity)) as (error & _ & Hrej).
  destruct (Hkey ltac:(reflexivity)) as (_ & Hrest & _).
  split; [exists error; exact Hrej | exact Hrest].
Defined.

End Prologue.

(** ** Seconds on the console *)

Section Seconds.

Implicit Types (w : World) (id : string) (e : Entry).

Lemma roundSeconds_nonneg (ms : Z) : (0 ≤ ms)%Z → (0 ≤ roundSeconds ms)%Z.
Proof. intros H. unfold roundSeconds. apply Z.div_pos; lia. Qed.

Lemma roundSeconds_near (ms : Z) :
  (1000 * roundSeconds ms - 500 ≤ ms < 1000 * roundSeconds ms + 500)%Z.
Proof.
  unfold roundSeconds.
  pose proof (Z.div_mod (ms + 500) 1000 ltac:(lia)) as Hdm.
  pose proof (Z.mod_pos_bound (ms + 500) 1000 ltac:(lia)) as Hb.
  lia.
Qed.

Lemma startedBy_later (t t' : Z) w :
  (t ≤ t')%Z → startedBy t w → startedBy t' w.
Proof.
  intros Hle [H1 H2 H3]. split; [| |exact H3].
  - intros id e He. specialize (H1 id e He). lia.
  - intros h c Hc. specialize (H2 h c Hc). lia.
Qed.

Lemma startedBy_log l w :
  secondsNonNegative l = true →
  startedBy (clock w) w → startedBy (clock w) (log l w).
Proof.
  intros Hl [H1 H2 H3]. split; simpl; [exact H1 | exact H2|].
  apply Forall_app. split; [exact H3 | now repeat constructor].
Qed.

Lemma startedBy_finishTicker id lbl w :
  startedBy (clock w) w →
  startedBy (clock w) (finishTicker id lbl w)
  ∧ clock (finishTicker id lbl w) = clock w.
Proof.
  intros Hw. destruct (toolRuns w !! id) as [e|] eqn:He;
    [|now rewrite finishTicker_unknown].
  rewrite (finishTicker_known _ _ _ _ He). split; [|reflexivity].
  destruct Hw as [H1 H2 H3]. split; simpl.
  - intros id' e' [_ He']%lookup_delete_Some. eauto.
  - intros h c Hc. destruct (ticker e); [|eauto].
    apply lookup_delete_Some in Hc as [_ Hc]. eauto.
  - apply Forall_app. split; [exact H3|].
    destruct lbl as [l|]; [|constructor].
    destruct (nonEmpty l); repeat constructor. simpl.
    apply Z.leb_le, roundSeconds_nonneg. specialize (H1 id e He). lia.
Qed.

Lemma startedBy_handleBlock block w :
  startedBy (clock w) w →
  startedBy (clock w) (handleBlock block w)
  ∧ clock (handleBlock block w) = clock w.
Proof.
  intros Hw. destruct block as [text|o name input|content toolUseId]; simpl.
  - split; [now apply startedBy_log | reflexivity].
  - assert (Hu : startedBy (clock w) (usingTool o name w)
                 ∧ clock (usingTool o name w) = clock w).
    { unfold usingTool. split.
      - destruct Hw as [H1 H2 H3]. split; simpl.
        + destruct o as [i|]; [|exact H1].
          destruct (nonEmpty i); [|exact H1]. simpl.
          intros id e [[_ <-]|[_ He]]%lookup_insert_Some; simpl; eauto.
          lia.
        + destruct o as [i|]; [destruct (nonEmpty i)|]; exact H2.
        + apply Forall_app. split; [|repeat constructor].
          destruct o as [i|]; [destruct (nonEmpty i)|]; exact H3.
      - simpl. destruct o as [i|]; [destruct (nonEmpty i)|]; reflexivity. }
    destruct input as [inp|], o as [i|]; try exact Hu.
    destruct (subagent_type inp) as [sub|]; [|exact Hu].
    destruct (nonEmpty sub && nonEmpty i); [|exact Hu].
    rewrite delegate_world. split; [|reflexivity].
    destruct Hw as [H1 H2 H3]. split; simpl.
    + intros id e [[_ <-]|[_ He]]%lookup_insert_Some; simpl; eauto. lia.
    + intros h c [[_ <-]|[_ Hc]]%lookup_insert_Some; simpl; eauto. lia.
    + apply Forall_app. split; [exact H3 | repeat constructor].
  - set (w1 := if nonEmpty _ then _ else _).
    assert (H1 : startedBy (clock w1) w1 ∧ clock w1 = clock w).
    { subst w1. destruct (nonEmpty _); [|auto].
      split; [now apply (startedBy_log _ w) | reflexivity]. }
    destruct H1 as [H1 Hc]. rewrite <- Hc.
    destruct toolUseId as [id|]; [|auto].
    destruct (nonEmpty id); [|auto].
    destruct (startedBy_finishTicker id (label <$> toolRuns w1 !! id) w1 H1)
      as [H2 Hc2].
    split; [exact H2 | exact Hc2].
Qed.

Lemma startedBy_blocks content w :
  startedBy (clock w) w →
  startedBy (clock w) (fold_left (fun w b => handleBlock b w) content w).
Proof.
  revert w. induction content as [|b content IH]; intros w Hw; simpl;
    [exact Hw|].
  destruct (startedBy_handleBlock b w Hw) as [H1 Hc].
  rewrite <- Hc. apply IH. now rewrite Hc.
Qed.

Lemma startedBy_step i w :
  startedBy (inputTime i) w →
  startedBy (inputTime i) (worldOf (step i w)).
Proof.
  intros Hw.
  assert (H0 : startedBy (clock (setClock (inputTime i) w))
                 (setClock (inputTime i) w)).
  { destruct Hw as [H1 H2 H3]. now split. }
  destruct i as [t [content|event|d c|]|t h]; simpl in *.
  - now apply (startedBy_blocks content (setClock t w)).
  - destruct (eventThrows event) eqn:Ht.
    + now rewrite handleStreamEvent_throws.
    + rewrite handleStreamEvent_done by exact Ht.
      destruct (prop "type" event) as [| | | |ty| |]; try exact H0.
      destruct (String.prefix "tool_result" ty); [|exact H0].
      cbv zeta. set (lbl := labelOf _ _).
      set (w1 := if nonEmpty _ then _ else _).
      assert (H1 : startedBy (clock w1) w1 ∧ clock w1 = t).
      { subst w1. destruct (nonEmpty _); [|auto].
        split; [now apply (startedBy_log _ (setClock t w)) | reflexivity]. }
      destruct H1 as [H1 Hc]. rewrite <- Hc.
      destruct (prop "tool_use_id" event) as [| | | |i| |]; simpl;
        try exact H1.
      destruct (_ && _); simpl; [|exact H1].
      now apply startedBy_finishTicker.
  - apply (startedBy_log _ (log (LDuration d) (setClock t w)));
      [reflexivity|].
    now apply (startedBy_log _ (setClock t w)).
  - exact H0.
  - unfold fire. simpl. destruct (intervals w !! h) as [c|] eqn:Hc;
      [|exact H0].
    apply (startedBy_log _ (setClock t w)); [|exact H0]. simpl.
    apply Z.leb_le, roundSeconds_nonneg.
    pose proof (sb_intervals _ _ Hw h c Hc). lia.
Qed.

Lemma startedBy_loop inputs (t : Z) w :
  StronglySorted Z.le (map inputTime inputs) →
  Forall (fun t' => (t ≤ t')%Z) (map inputTime inputs) →
  startedBy t w →
  Forall (fun l => secondsNonNegative l = true)
    (console (worldOf (loop inputs w))).
Proof.
  revert t w. induction inputs as [|i inputs IH]; intros t w Hs Hb Hw.
  - exact (sb_console _ _ Hw).
  - simpl in Hs, Hb. inversion Hs as [|? ? Hs' Hall]; subst.
    inversion Hb as [|? ? Hle Hb']; subst.
    pose proof (startedBy_step i w (startedBy_later _ _ _ Hle Hw)) as H1.
    simpl. destruct (step i w) as [w1|w1 err]; simpl in *;
      [|exact (sb_console _ _ H1)].
    now apply (IH (inputTime i)).
Qed.

(** X14. When the clock readings of the inputs are in non-decreasing
    order, every number of seconds a run prints, on a progress line or on
    a returned line, is zero or more.  Each such number is the elapsed
    time in milliseconds rounded to the nearest second, a half rounding
    up: it is within half a second of the elapsed time. *)
Theorem seconds_never_negative (inputs : list Input) (ms : Z) :
  StronglySorted Z.le (map inputTime inputs) →
  Forall (fun l => secondsNonNegative l = true)
    (console (worldOf (run inputs)))
  ∧ (1000 * roundSeconds ms - 500 ≤ ms < 1000 * roundSeconds ms + 500)%Z.
Proof.
  intros Hs. split; [|apply roundSeconds_near].
  assert (Hloop : Forall (fun l => secondsNonNegative l = true)
                    (console (worldOf (loop inputs init)))).
  { destruct inputs as [|i inputs]; [constructor|].
    apply (startedBy_loop (i :: inputs) (inputTime i)); [exact Hs| |].
    - simpl in *. inversion Hs; subst. constructor; [lia | assumption].
    - split; simpl; try constructor;
        intros ? ?; rewrite lookup_empty; discriminate. }
  unfold run. destruct (loop inputs init) as [w|w err]; simpl in *.
  - rewrite cleanup_console. apply Forall_app.
    split; [exact Hloop | repeat constructor].
  - apply Forall_app. split; [exact Hloop | repeat constructor].
Qed.

Lemma seconds_never_negative_witness :
  Forall (fun l => secondsNonNegative l = true)
    (console (worldOf (run scenario))).
Proof.
  apply (seconds_never_negative scenario 0).
  vm_compute. repeat constructor; discriminate.
Defined.

End Seconds.

(** ** The options read from the environment *)

Section Options.

Lemma horner_acc (d : Decimal.uint) (acc : positive) :
  horner d (Z.pos acc) = Z.pos (Pos.of_uint_acc d acc).
Proof.
  revert acc. induction d; intros acc; simpl; try reflexivity;
    match goal with
    | |- horner _ ?z = Z.pos (Pos.of_uint_acc _ ?p) =>
        replace z with (Z.pos p) by lia
    end; apply IHd.
Qed.

Lemma horner_value (d : Decimal.uint) :
  horner d 0 = Z.of_N (Pos.of_uint d).
Proof.
  induction d; simpl; try reflexivity; try exact IHd;
    first [ exact (horner_acc d 1) | exact (horner_acc d 2)
          | exact (horner_acc d 3) | exact (horner_acc d 4)
          | exact (horner_acc d 5) | exact (horner_acc d 6)
          | exact (horner_acc d 7) | exact (horner_acc d 8)
          | exact (horner_acc d 9) ].
Qed.

Lemma parseDigits_numeral (d : Decimal.uint) (rest : string) (acc : Z) :
  startsWithDigit rest = false →
  parseDigits (NilEmpty.string_of_uint d +:+ rest) acc = horner d acc.
Proof.
  intros Hrest. revert acc. induction d; intros acc; simpl;
    try apply IHd.
  rewrite append_nil_l. destruct rest as [|a r]; [reflexivity|].
  simpl in *. now destruct (digitValue a).
Qed.

Lemma parseDigits_decimal (d : Decimal.uint) (rest : string) :
  startsWithDigit rest = false →
  parseDigits (NilZero.string_of_uint d +:+ rest) 0 = Z.of_uint d
  ∧ startsWithDigit (NilZero.string_of_uint d +:+ rest) = true.
Proof.
  intros Hrest. unfold NilZero.string_of_uint, Z.of_uint.
  rewrite <- horner_value.
  destruct d; try (split; [now apply parseDigits_numeral | reflexivity]).
  change ("0" +:+ rest) with (String "0" rest). simpl.
  destruct rest as [|a r]; [easy|]. simpl in *.
  now destruct (digitValue a).
Qed.

Lemma trimStart_blank_prefix (ws s : string) :
  blank ws = true → trimStart (ws +:+ s) = trimStart s.
Proof.
  induction ws as [|a ws IH]; [reflexivity|].
  rewrite append_cons. simpl.
  intros [Ha Hws]%andb_prop. rewrite Ha. auto.
Qed.

(** A string that starts with a digit is read from its first character. *)
Lemma parseInt10_digits (s : string) :
  startsWithDigit s = true →
  parseInt10 s = if (parseDigits s 0 <=? 2 ^ 53)%Z
                 then Exact (parseDigits s 0) else Large.
Proof.
  destruct s as [|a r]; [discriminate|]. unfold parseInt10.
  destruct a as [[] [] [] [] [] [] [] []]; try discriminate; reflexivity.
Qed.

Lemma of_uint_nonneg (d : Decimal.uint) : (0 ≤ Z.of_uint d)%Z.
Proof. unfold Z.of_uint. lia. Qed.

(** Reading back the decimal rendering of an integer, after white space
    and before any text that does not start with a digit. *)
Lemma parseInt10_decimal (ws rest : string) (z : Z) :
  blank ws = true → startsWithDigit rest = false →
  parseInt10 (ws +:+ decimal z +:+ rest)
  = if (Z.abs z <=? 2 ^ 53)%Z then Exact z else Large.
Proof.
  intros Hws Hrest.
  assert (Hmain : parseInt10 (decimal z +:+ rest)
                  = if (Z.abs z <=? 2 ^ 53)%Z then Exact z else Large).
  { unfold decimal, NilZero.string_of_int.
    pose proof (DecimalZ.of_to z) as Hz.
    destruct (Z.to_int z) as [d|d]; simpl Z.of_int in Hz; subst z;
      destruct (parseDigits_decimal d rest Hrest) as [Hv Hd];
      pose proof (of_uint_nonneg d) as Hpos.
    - rewrite (parseInt10_digits _ Hd), Hv.
      now rewrite Z.abs_eq by exact Hpos.
    - rewrite append_cons. unfold parseInt10. simpl trimStart.
      destruct (NilZero.string_of_uint d +:+ rest) as [|a r];
        [discriminate|].
      simpl in Hd. destruct (digitValue a); [|discriminate].
      cbv zeta. rewrite Hv.
      now rewrite Z.abs_opp, Z.abs_eq by exact Hpos. }
  unfold parseInt10 in *. now rewrite (trimStart_blank_prefix _ _ Hws).
Qed.

(** No digit after the white space and the sign: [NaN]. *)
Lemma parseInt10_nan (ws junk : string) :
  blank ws = true → startsWithDigit junk = false →
  parseInt10 (ws +:+ "-" +:+ junk) = NaN
  ∧ parseInt10 (ws +:+ "+" +:+ junk) = NaN
  ∧ (startsWithSign junk = false → startsBlank junk = false →
     parseInt10 (ws +:+ junk) = NaN).
Proof.
  intros Hws Hjunk. unfold parseInt10.
  rewrite !(trimStart_blank_prefix _ _ Hws), !append_cons, !append_nil_l.
  simpl trimStart.
  destruct junk as [|a r]; [repeat split|].
  simpl in Hjunk. repeat split.
  - destruct (digitValue a); [discriminate | reflexivity].
  - destruct (digitValue a); [discriminate | reflexivity].
  - simpl. intros Hsign ->.
    destruct a as [[] [] [] [] [] [] [] []]; try discriminate; reflexivity.
Qed.

(** X15. The options read from the environment.  The model is the value
    of [CLAUDE_MODEL] unless that is unset or empty, and is never the
    empty string.  The token limit is 4096 when [CLAUDE_MAX_TOKENS] is
    unset or empty.  When the value is the decimal rendering of an integer
    [z], also after white space and before any text that does not start
    with a digit, the limit is [z] if the magnitude of [z] is at most 2^53
    and a rounded number, left open, otherwise.  And it is [NaN], not 4096,
    when the value is not empty and no digit follows its leading white
    space and sign.  White space is that of [parseInt], the no-break space
    included. *)
Theorem options_from_environment
    (model : option string) (ws rest junk : string) (z : Z) :
  blank ws = true → startsWithDigit rest = false →
  startsWithDigit junk = false → startsWithSign junk = false →
  startsBlank junk = false → nonEmpty (ws +:+ junk) = true →
  nonEmpty (getModel model) = true
  ∧ (absent model = true → getModel model = "claude-sonnet-4-5")
  ∧ (∀ s, model = Some s → nonEmpty s = true → getModel model = s)
  ∧ getMaxTokens None = Exact 4096
  ∧ getMaxTokens (Some "") = Exact 4096
  ∧ ((Z.abs z ≤ 2 ^ 53)%Z →
     getMaxTokens (Some (ws +:+ decimal z +:+ rest)) = Exact z)
  ∧ ((2 ^ 53 < Z.abs z)%Z →
     getMaxTokens (Some (ws +:+ decimal z +:+ rest)) = Large)
  ∧ getMaxTokens (Some (ws +:+ junk)) = NaN
  ∧ getMaxTokens (Some (ws +:+ "-" +:+ junk)) = NaN
  ∧ getMaxTokens (Some (ws +:+ "+" +:+ junk)) = NaN
  ∧ getMaxTokens
      (Some (String (ascii_of_nat 160) (String (ascii_of_nat 9) "8192")))
    = Exact 8192.
Proof.
  intros Hws Hrest Hjunk Hsign Hblank Hne.
  destruct (parseInt10_nan ws junk Hws Hjunk) as (Hm & Hp & Hn).
  assert (Hget : ∀ s, nonEmpty s = true →
                      getMaxTokens (Some s) = parseInt10 s).
  { intros s Hs. now destruct s. }
  assert (Hcons : ∀ a r, nonEmpty (ws +:+ String a r) = true).
  { intros a r. now destruct ws. }
  assert (Hdec : getMaxTokens (Some (ws +:+ decimal z +:+ rest))
                 = if (Z.abs z <=? 2 ^ 53)%Z then Exact z else Large).
  { pose proof (parseInt10_decimal ws rest z Hws Hrest) as H.
    unfold getMaxTokens.
    destruct (ws +:+ decimal z +:+ rest) as [|a r] eqn:Heq; [|exact H].
    now destruct (Z.abs z <=? 2 ^ 53)%Z. }
  split; [now destruct model as [[|a s]|]|].
  split; [now destruct model as [[|a s]|]|].
  split; [intros s -> Hs; now destruct s|].
  split; [reflexivity|]. split; [reflexivity|].
  split; [|split; [|split; [|split; [|split]]]].
  - intros Hz. rewrite Hdec.
    now destruct (Z.leb_spec (Z.abs z) (2 ^ 53)); [|lia].
  - intros Hz. rewrite Hdec.
    now destruct (Z.leb_spec (Z.abs z) (2 ^ 53)); [lia|].
  - rewrite Hget by exact Hne. now apply Hn.
  - rewrite Hget by apply Hcons. exact Hm.
  - rewrite Hget by apply Hcons. exact Hp.
  - reflexivity.
Qed.

Lemma options_from_environment_witness :
  getMaxTokens (Some (" " +:+ decimal 8192 +:+ " tokens")) = Exact 8192
  ∧ getMaxTokens (Some ("" +:+ decimal (2 ^ 53 + 1) +:+ "")) = Large
  ∧ getMaxTokens (Some ("" +:+ "many")) = NaN.
Proof.
  pose proof (options_from_environment None " " " tokens" "many" 8192
                ltac:(reflexivity) ltac:(reflexivity) ltac:(reflexivity)
                ltac:(reflexivity) ltac:(reflexivity) ltac:(reflexivity))
    as (_ & _ & _ & _ & _ & H6 & _).
  pose proof (options_from_environment None "" "" "many" (2 ^ 53 + 1)
                ltac:(reflexivity) ltac:(reflexivity) ltac:(reflexivity)
                ltac:(reflexivity) ltac:(reflexivity) ltac:(reflexivity))
    as (_ & _ & _ & _ & _ & _ & H7 & H8 & _).
  split; [apply H6; vm_compute; discriminate|].
  split; [apply H7; vm_compute; reflexivity | exact H8].
Defined.

End Options.
